(** * Resource synchronisation of the demo MCP server

    A shallow embedding of [resource_folder.py]: the patched resource
    manager ([add_resource], [remove_resource]), the request handlers
    ([_tracked_list], [_on_subscribe], [_on_unsubscribe]) and the folder
    watcher ([watch_resources]), followed by the properties the
    specification states about them.

    Conventions of the embedding.
    - The module-level containers [subscribers] (a [defaultdict(set)]) and
      [all_sessions] (a [set]) and the resource manager's [_resources] dict
      are the three fields of [State]; every operation threads the state.
    - Output is a trace of [event]s: each [logger.info] line and each task
      handed to [asyncio.create_task], in program order.  Iterating a Python
      set visits its members once each, in an order the language does not
      fix; the model iterates [elements].
    - [str(uri)] and [AnyUrl(uri)] are taken as the identity on uri strings.
    - No loop body of the watcher awaits, so one poll cycle is one atomic
      transition. *)

From stdpp Require Import gmap strings list fin_maps fin_sets pretty.
From Stdlib Require Import ZArith.

Open Scope string_scope.

(** ** Data *)

(** A session is an opaque handle compared by identity. *)
Abbreviation Session := nat (only parsing).

(** A [pathlib.Path] of the watched directory. *)
Abbreviation Path := string (only parsing).

(** [st_mtime]; only compared for equality. *)
Abbreviation Mtime := Z (only parsing).

(** What a resource's [fn] does when it is read: [_read_file(path=f)]
    reads the file at that moment; [server.py]'s [read_log] returns a
    fixed text. *)
Inductive content_fn :=
| ReadFile (path : Path)
| Static (text : string).

Record Resource := {
  uri : string;
  fn : content_fn;
  mime_type : string
}.

#[global] Instance content_fn_eq_dec : EqDecision content_fn.
Proof. solve_decision. Defined.

#[global] Instance Resource_eq_dec : EqDecision Resource.
Proof. solve_decision. Defined.

(** Reading a resource against the file system as it is when read. *)
Definition read_resource (fs : Path → option string) (r : Resource) : option string :=
  match fn r with
  | ReadFile path => fs path
  | Static text => Some text
  end.

Inductive event :=
| LogListChanged (sess_list : list Session)
| LogConnect (sess : Session)
| LogSubscribe (key : string) (subs : list Session)
| LogUnsubscribe (key : string) (subs : list Session)
| LogNew (uri : string)
| LogModified (uri : string)
| LogRemoved (uri : string)
| SendResourceListChanged (sess : Session)
| SendResourceUpdated (sess : Session) (uri : string).

#[global] Instance event_eq_dec : EqDecision event.
Proof. solve_decision. Defined.

(** Number of times an event occurs in a trace. *)
Definition occurrences (e : event) (tr : list event) : nat :=
  length (filter (λ x, x = e) tr).

Record State := {
  resources : gmap string Resource;
  subscribers : gmap string (gset Session);
  all_sessions : gset Session
}.

Definition set_resources (f : gmap string Resource → gmap string Resource)
    (st : State) : State :=
  {| resources := f (resources st);
     subscribers := subscribers st;
     all_sessions := all_sessions st |}.

Definition set_subscribers
    (f : gmap string (gset Session) → gmap string (gset Session))
    (st : State) : State :=
  {| resources := resources st;
     subscribers := f (subscribers st);
     all_sessions := all_sessions st |}.

Definition set_all_sessions (f : gset Session → gset Session)
    (st : State) : State :=
  {| resources := resources st;
     subscribers := subscribers st;
     all_sessions := f (all_sessions st) |}.

(** ** State and trace monad *)

Definition M (A : Type) : Type := State → A * State * list event.

Definition ret {A} (a : A) : M A := λ st, (a, st, []).

Definition bind {A B} (m : M A) (k : A → M B) : M B :=
  λ st,
    let '(a, st1, tr1) := m st in
    let '(b, st2, tr2) := k a st1 in
    (b, st2, (tr1 ++ tr2)%list).

Definition get : M State := λ st, (st, st, []).
Definition modify (f : State → State) : M unit := λ st, ((), f st, []).
Definition emit (e : event) : M unit := λ st, ((), st, [e]).

Declare Scope m_scope.
Delimit Scope m_scope with M.
Notation "x <- m ;; k" := (bind m (λ x, k))
  (at level 100, m at next level, right associativity) : m_scope.
Notation "m ;;; k" := (bind m (λ _, k))
  (at level 100, right associativity) : m_scope.
Open Scope m_scope.

Fixpoint for_each {X} (l : list X) (body : X → M unit) : M unit :=
  match l with
  | [] => ret ()
  | x :: l' => body x ;;; for_each l' body
  end.

Definition value_of {A} (r : A * State * list event) : A := r.1.1.
Definition state_of {A} (r : A * State * list event) : State := r.1.2.
Definition trace_of {A} (r : A * State * list event) : list event := r.2.

(** ** The patched resource manager and the request handlers *)

(** [subscribers.get(key, [])]: reads without creating the entry. *)
Definition subscribers_get (subs : gmap string (gset Session)) (key : string)
    : gset Session :=
  default ∅ (subs !! key).

(** [subscribers[key]] on the [defaultdict(set)]: a missing key is first
    stored with an empty set. *)
Definition subscribers_getitem (subs : gmap string (gset Session)) (key : string)
    : gmap string (gset Session) * gset Session :=
  match subs !! key with
  | Some s => (subs, s)
  | None => (<[key := ∅]> subs, ∅)
  end.

(** The log line and the loop shared by [add_resource] and
    [remove_resource]: one [send_resource_list_changed] task per member of
    [all_sessions].  Both branches of the [try] write one [ListChanged]
    line about the same set. *)
Definition broadcast_list_changed : M unit :=
  st <- get ;;
  emit (LogListChanged (elements (all_sessions st))) ;;;
  for_each (elements (all_sessions st))
    (λ sess, emit (SendResourceListChanged sess)).

Definition remove_resource (uri : string) : M unit :=
  let uri_str := uri in
  st <- get ;;
  (if decide (is_Some (resources st !! uri_str))
   then modify (set_resources (delete uri_str))
   else ret ()) ;;;
  broadcast_list_changed ;;;
  modify (set_subscribers (delete uri_str)).

(** Modelled from the spec: [ResourceManager.add_resource] of the MCP
    framework, which [add_resource] wraps as [orig_add], is not part of
    the sources; section 4.1 says it inserts or replaces the resource
    keyed by its uri. *)
Definition upsert_add (resource : Resource) (rs : gmap string Resource)
    : gmap string Resource :=
  <[uri resource := resource]> rs.

(** Modelled from the spec: the framework's list-resources handler, which
    [_tracked_list] wraps as [orig_list], is not part of the sources;
    section 4.1 says it returns the current resources and changes
    nothing. *)
Definition list_resources (rs : gmap string Resource) : list Resource :=
  (map_to_list rs).*2.

(** The operations the server performs on its state. *)
Inductive op :=
| OpAdd (resource : Resource)
| OpRemove (uri : string)
| OpSubscribe (uri : string) (sess : Session)
| OpUnsubscribe (uri : string) (sess : Session)
| OpList (sess : Session)
| OpWatch (current : gmap Path Mtime).

(** The three classes of files of a poll cycle, as in section 4.5. *)
Definition is_new (last_snap : gmap Path Mtime) (item : Path * Mtime) : Prop :=
  last_snap !! item.1 = None.

Definition is_modified (last_snap : gmap Path Mtime) (item : Path * Mtime)
    : Prop :=
  ∃ old, last_snap !! item.1 = Some old ∧ old ≠ item.2.

#[global] Instance is_new_dec last_snap item : Decision (is_new last_snap item).
Proof. unfold is_new. apply _. Defined.

#[global] Instance is_modified_dec last_snap item :
  Decision (is_modified last_snap item).
Proof.
  unfold is_modified. destruct (last_snap !! item.1) as [old|] eqn:E.
  - destruct (decide (old = item.2)) as [->|Hne].
    + right. intros (o & Ho & Hn). congruence.
    + left. eauto.
  - right. intros (o & Ho & _). discriminate.
Defined.

Definition new_files (last_snap current : gmap Path Mtime) : list Path :=
  (filter (is_new last_snap) (map_to_list current)).*1.

Definition modified_files (last_snap current : gmap Path Mtime) : list Path :=
  (filter (is_modified last_snap) (map_to_list current)).*1.

Definition removed_files (last_snap current : gmap Path Mtime) : list Path :=
  elements (dom last_snap ∖ dom current).

(** The events that are notifications to sessions, as opposed to log
    lines. *)
Definition is_notification (e : event) : bool :=
  match e with
  | SendResourceListChanged _ | SendResourceUpdated _ _ => true
  | _ => false
  end.

Definition notifications (tr : list event) : list event :=
  filter (λ e, is_notification e = true) tr.

(** What one broadcast writes to the trace in state [st]. *)
Definition list_changed_batch (st : State) : list event :=
  LogListChanged (elements (all_sessions st))
  :: (SendResourceListChanged <$> elements (all_sessions st)).

(** The subscription index stores no empty set. *)
Definition no_empty_entry (subs : gmap string (gset Session)) : Prop :=
  ∀ key s, subs !! key = Some s → s ≠ ∅.

Section Patches.

(** The framework's methods the patches wrap: [orig_add] works on the
    manager's [_resources] only; [orig_list] is the handler found by
    [request_handlers.get], if any. *)
Variable orig_add : Resource → gmap string Resource → gmap string Resource.
Variable orig_list : option (gmap string Resource → list Resource).

(** [Path.resolve] of the file system. *)
Variable resolve : Path → string.

Definition add_resource (resource : Resource) : M unit :=
  modify (set_resources (orig_add resource)) ;;;
  broadcast_list_changed.

Definition _tracked_list (sess : Session) : M (list Resource) :=
  modify (set_all_sessions (λ s, {[sess]} ∪ s)) ;;;
  emit (LogConnect sess) ;;;
  match orig_list with
  | Some handler => st <- get ;; ret (handler (resources st))
  | None => ret []
  end.

Definition _on_subscribe (uri : string) (sess : Session) : M unit :=
  let key := uri in
  modify (set_subscribers (λ subs,
    let '(subs1, s) := subscribers_getitem subs key in
    <[key := {[sess]} ∪ s]> subs1)) ;;;
  st <- get ;;
  emit (LogSubscribe key (elements (subscribers_getitem (subscribers st) key).2)).

Definition _on_unsubscribe (uri : string) (sess : Session) : M unit :=
  let key := uri in
  modify (set_subscribers (λ subs,
    let '(subs1, s) := subscribers_getitem subs key in
    <[key := s ∖ {[sess]}]> subs1)) ;;;
  st <- get ;;
  emit (LogUnsubscribe key (elements (subscribers_getitem (subscribers st) key).2)).

(** ** The folder watcher *)

Definition file_uri (f : Path) : string := "file://" +:+ resolve f.

Definition file_resource (f : Path) : Resource :=
  {| uri := file_uri f; fn := ReadFile f; mime_type := "text/plain" |}.

(** Body of the first loop of a poll cycle, for one item of [current]. *)
Definition watch_item (last_snap : gmap Path Mtime) (item : Path * Mtime)
    : M unit :=
  let '(f, mtime) := item in
  let uri := file_uri f in
  match last_snap !! f with
  | None =>
      emit (LogNew uri) ;;;
      add_resource (file_resource f)
  | Some old =>
      if decide (old ≠ mtime) then
        emit (LogModified uri) ;;;
        st <- get ;;
        for_each (elements (subscribers_get (subscribers st) uri))
          (λ sess, emit (SendResourceUpdated sess uri))
      else ret ()
  end.

(** Body of the second loop, for one deleted file. *)
Definition watch_deleted (f : Path) : M unit :=
  let uri := file_uri f in
  emit (LogRemoved uri) ;;;
  remove_resource uri.

(** One iteration of [while True] after the sleep: [current] is the
    listing just read; the value returned is the new [last_snap]. *)
Definition watch_cycle (last_snap current : gmap Path Mtime)
    : M (gmap Path Mtime) :=
  for_each (map_to_list current) (watch_item last_snap) ;;;
  for_each (elements (dom last_snap ∖ dom current)) watch_deleted ;;;
  ret current.

(** [_start_watcher]: every file found at startup is added. *)
Definition _start_watcher (files : list Path) : M unit :=
  for_each files (λ f, add_resource (file_resource f)).

(** ** The server as a transition system *)

(** One atomic operation: a handler serving a request, or one poll cycle
    of the watcher.  The watcher's [last_snap] is threaded as the value. *)
Definition step (o : op) (last_snap : gmap Path Mtime) : M (gmap Path Mtime) :=
  match o with
  | OpAdd resource => add_resource resource ;;; ret last_snap
  | OpRemove uri => remove_resource uri ;;; ret last_snap
  | OpSubscribe uri sess => _on_subscribe uri sess ;;; ret last_snap
  | OpUnsubscribe uri sess => _on_unsubscribe uri sess ;;; ret last_snap
  | OpList sess => _tracked_list sess ;;; ret last_snap
  | OpWatch current => watch_cycle last_snap current
  end.

Fixpoint run (ops : list op) (last_snap : gmap Path Mtime)
    : M (gmap Path Mtime) :=
  match ops with
  | [] => ret last_snap
  | o :: ops' => snap <- step o last_snap ;; run ops' snap
  end.

(** ** The poll cycle as the specification words it

    Section 4.5, steps 3 to 6: every New file is added, every Modified
    file is notified to its interested sessions, every Removed file is
    removed, and [current] becomes the snapshot. *)

Definition notify_updated (uri : string) : M unit :=
  st <- get ;;
  for_each (elements (subscribers_get (subscribers st) uri))
    (λ sess, emit (SendResourceUpdated sess uri)).

Definition spec_cycle (last_snap current : gmap Path Mtime)
    : M (gmap Path Mtime) :=
  for_each (new_files last_snap current)
    (λ f, add_resource (file_resource f)) ;;;
  for_each (modified_files last_snap current)
    (λ f, notify_updated (file_uri f)) ;;;
  for_each (removed_files last_snap current)
    (λ f, remove_resource (file_uri f)) ;;;
  ret current.

(** ** The effect of one loop iteration, in closed form *)

(** What the inner loop of the Modified branch writes in state [st]. *)
Definition resource_updated_batch (st : State) (uri : string) : list event :=
  (λ sess, SendResourceUpdated sess uri)
    <$> elements (subscribers_get (subscribers st) uri).

Definition item_update (last_snap : gmap Path Mtime) (item : Path * Mtime)
    (st : State) : State :=
  match last_snap !! item.1 with
  | None => set_resources (orig_add (file_resource item.1)) st
  | Some _ => st
  end.

Definition item_trace (last_snap : gmap Path Mtime) (item : Path * Mtime)
    (st : State) : list event :=
  match last_snap !! item.1 with
  | None => LogNew (file_uri item.1) :: list_changed_batch st
  | Some old =>
      if decide (old ≠ item.2)
      then LogModified (file_uri item.1)
           :: resource_updated_batch st (file_uri item.1)
      else []
  end.

Definition deleted_update (f : Path) (st : State) : State :=
  {| resources := delete (file_uri f) (resources st);
     subscribers := delete (file_uri f) (subscribers st);
     all_sessions := all_sessions st |}.

Definition deleted_trace (f : Path) (st : State) : list event :=
  LogRemoved (file_uri f) :: list_changed_batch st.

(** The lines the watcher itself logs; the rest of a cycle's trace is
    written by the manager and the fan-out it calls. *)
Definition is_watcher_log (e : event) : bool :=
  match e with
  | LogNew _ | LogModified _ | LogRemoved _ => true
  | _ => false
  end.

Definition calls_trace (tr : list event) : list event :=
  filter (λ e, is_watcher_log e = false) tr.

End Patches.

(** ** States used in the concrete runs *)

Definition session_1 : Session := 1.
Definition session_2 : Session := 2.

Definition uri_a : string := "file:///srv/watch/a.txt".
Definition uri_b : string := "file:///srv/watch/b.txt".

Definition resource_a : Resource :=
  {| uri := uri_a; fn := ReadFile "/srv/watch/a.txt"; mime_type := "text/plain" |}.

(** A second resource under the uri of [resource_a]. *)
Definition resource_a' : Resource :=
  {| uri := uri_a; fn := Static "replaced"; mime_type := "text/plain" |}.

(** Nothing registered, nobody subscribed, one session in the directory. *)
Definition st_listed : State :=
  {| resources := ∅; subscribers := ∅; all_sessions := {[session_1]} |}.

(** [resource_a] registered, [session_2] subscribed to it, [session_1] in
    the directory. *)
Definition st_registered : State :=
  {| resources := {[uri_a := resource_a]};
     subscribers := {[uri_a := {[session_2]}]};
     all_sessions := {[session_1]} |}.

(** A directory whose paths are absolute and free of symbolic links:
    [resolve] returns them as they are. *)
Definition resolve_abs (f : Path) : string := f.

Definition path_a : Path := "/srv/watch/a.txt".
Definition path_b : Path := "/srv/watch/b.txt".
Definition path_c : Path := "/srv/watch/c.txt".

(** [session_2] follows [uri_a], [session_1] follows [uri_b] and is in
    the directory. *)
Definition st_watched : State :=
  {| resources := {[uri_a := resource_a]};
     subscribers := {[uri_a := {[session_2]}; uri_b := {[session_1]}]};
     all_sessions := {[session_1]} |}.

(** Between two polls [a.txt] was touched, [b.txt] appeared and [c.txt]
    was deleted. *)
Definition snap_before : gmap Path Mtime := {[path_a := 100%Z; path_c := 7%Z]}.
Definition snap_after : gmap Path Mtime := {[path_a := 200%Z; path_b := 50%Z]}.

(** A snapshot against which both files of [snap_after] were touched. *)
Definition snap_both : gmap Path Mtime := {[path_a := 100%Z; path_b := 40%Z]}.

(** ** The watcher loop *)

(** [watch_resources] from the snapshot taken before the loop: one cycle
    for every listing read after a sleep.  The loop does not end; the
    value is the snapshot held once the listings given are consumed. *)
Fixpoint watch_resources
    (orig_add : Resource → gmap string Resource → gmap string Resource)
    (resolve : Path → string)
    (last_snap : gmap Path Mtime) (polls : list (gmap Path Mtime))
    : M (gmap Path Mtime) :=
  match polls with
  | [] => ret last_snap
  | current :: polls' =>
      snap <- watch_cycle orig_add resolve last_snap current ;;
      watch_resources orig_add resolve snap polls'
  end.

(** The sessions that issue a list request in a sequence of operations. *)
Definition listing_sessions (ops : list op) : gset Session :=
  list_to_set
    (omap (λ o, match o with OpList sess => Some sess | _ => None end) ops).

(** ** The tools of [server.py] *)

(** What a tool does besides returning: lines printed, sleeps, and
    progress reports sent through the request context. *)
Inductive tool_event :=
| Print (text : string)
| Sleep (seconds : Z)
| ReportProgress (progress total : Z).

#[global] Instance tool_event_eq_dec : EqDecision tool_event.
Proof. solve_decision. Defined.

(** [long_task]: [range(total)] is empty for a [total] that is not
    positive. *)
Definition long_task (duration : Z) : list tool_event * string :=
  let total := duration in
  (Print "USED LONG TASK"
   :: (seqZ 0 total ≫= (λ i, [Sleep 1; ReportProgress (i + 1) total])),
   "Completed long task of duration " +:+ pretty total +:+ " seconds").

(** The progress reports of a tool run, in order. *)
Definition progress_reports (tr : list tool_event) : list (Z * Z) :=
  omap (λ e, match e with
             | ReportProgress progress total => Some (progress, total)
             | _ => None
             end) tr.

(** The seconds a tool run sleeps in total. *)
Definition slept (tr : list tool_event) : Z :=
  foldr Z.add 0%Z
    (omap (λ e, match e with Sleep s => Some s | _ => None end) tr).

(** * Properties *)

(** ** Running the monad *)

Lemma state_of_bind {A B} (m : M A) (k : A → M B) st :
  state_of (bind m k st) = state_of (k (value_of (m st)) (state_of (m st))).
Proof.
  unfold bind, state_of, value_of.
  destruct (m st) as [[a st1] tr1]; simpl.
  by destruct (k a st1) as [[b st2] tr2].
Qed.

Lemma trace_of_bind {A B} (m : M A) (k : A → M B) st :
  trace_of (bind m k st)
  = (trace_of (m st) ++ trace_of (k (value_of (m st)) (state_of (m st))))%list.
Proof.
  unfold bind, state_of, value_of, trace_of.
  destruct (m st) as [[a st1] tr1]; simpl.
  by destruct (k a st1) as [[b st2] tr2].
Qed.

Lemma value_of_bind {A B} (m : M A) (k : A → M B) st :
  value_of (bind m k st) = value_of (k (value_of (m st)) (state_of (m st))).
Proof.
  unfold bind, state_of, value_of.
  destruct (m st) as [[a st1] tr1]; simpl.
  by destruct (k a st1) as [[b st2] tr2].
Qed.

Lemma for_each_emit {X} (g : X → event) (l : list X) st :
  for_each l (λ x, emit (g x)) st = ((), st, g <$> l).
Proof.
  induction l as [|x l IH]; [done|].
  simpl. unfold bind. simpl. by rewrite IH.
Qed.

(** ** Counting events *)

Lemma occurrences_cons e x tr :
  occurrences e (x :: tr)
  = (if decide (x = e) then 1 else 0) + occurrences e tr.
Proof.
  unfold occurrences. rewrite filter_cons.
  by destruct (decide (x = e)).
Qed.

Lemma occurrences_app e tr1 tr2 :
  occurrences e (tr1 ++ tr2) = occurrences e tr1 + occurrences e tr2.
Proof. unfold occurrences. by rewrite filter_app, length_app. Qed.

Lemma occurrences_not_elem e tr : e ∉ tr → occurrences e tr = 0.
Proof.
  induction tr as [|x tr IH]; [done|].
  rewrite not_elem_of_cons, occurrences_cons. intros [Hne Hnot].
  rewrite decide_False by done. by rewrite IH.
Qed.

Lemma occurrences_fmap_NoDup {X} (g : X → event) `{!Inj (=) (=) g}
    (l : list X) (x : X) :
  NoDup l → x ∈ l → occurrences (g x) (g <$> l) = 1.
Proof.
  induction 1 as [|y l Hy Hnd IH]; [by intros ?%elem_of_nil|].
  rewrite elem_of_cons, fmap_cons, occurrences_cons. intros [->|Hin].
  - rewrite decide_True by done.
    rewrite occurrences_not_elem; [done|].
    intros (z & Hz & Hzl)%list_elem_of_fmap. apply (inj g) in Hz. by subst.
  - rewrite decide_False, IH; [done..|].
    intros Hg%(inj g). by subst.
Qed.

#[local] Instance SendResourceListChanged_inj : Inj (=) (=) SendResourceListChanged.
Proof. by intros ?? [=]. Qed.

#[local] Instance SendResourceUpdated_inj uri :
  Inj (=) (=) (λ sess, SendResourceUpdated sess uri).
Proof. by intros ?? [=]. Qed.

(** ** What the patched manager does *)

Lemma broadcast_list_changed_run st :
  broadcast_list_changed st = ((), st, list_changed_batch st).
Proof.
  unfold broadcast_list_changed, bind, get, list_changed_batch. simpl.
  by rewrite for_each_emit.
Qed.

Lemma remove_resource_run uri st :
  remove_resource uri st
  = ((), {| resources := delete uri (resources st);
            subscribers := delete uri (subscribers st);
            all_sessions := all_sessions st |},
     list_changed_batch st).
Proof.
  unfold remove_resource, bind at 1, get.
  destruct (decide (is_Some (resources st !! uri))) as [Hin|Hout].
  - unfold bind, modify. rewrite broadcast_list_changed_run. simpl.
    by rewrite (right_id_L [] (++)).
  - unfold bind, modify, ret. rewrite broadcast_list_changed_run. simpl.
    rewrite (right_id_L [] (++)). do 2 f_equal.
    destruct st as [rs subs all]; unfold set_subscribers; simpl in *.
    f_equal. symmetry. apply delete_id. by rewrite eq_None_not_Some.
Qed.

Lemma add_resource_run orig_add resource st :
  add_resource orig_add resource st
  = ((), set_resources (orig_add resource) st, list_changed_batch st).
Proof.
  unfold add_resource, bind, modify.
  by rewrite broadcast_list_changed_run.
Qed.

Lemma list_changed_batch_occurrences st sess :
  occurrences (SendResourceListChanged sess) (list_changed_batch st)
  = if decide (sess ∈ all_sessions st) then 1 else 0.
Proof.
  unfold list_changed_batch. rewrite occurrences_cons.
  rewrite decide_False by done. simpl.
  destruct (decide (sess ∈ all_sessions st)) as [Hin|Hout].
  - apply (occurrences_fmap_NoDup SendResourceListChanged).
    + apply NoDup_elements.
    + by apply elem_of_elements.
  - apply occurrences_not_elem.
    intros (z & [= ->] & Hz%elem_of_elements)%list_elem_of_fmap. done.
Qed.

Lemma remove_resource_twice_trace uri st :
  trace_of ((remove_resource uri ;;; remove_resource uri) st)
  = (list_changed_batch st ++ list_changed_batch st)%list.
Proof.
  rewrite trace_of_bind, !remove_resource_run. done.
Qed.

(** ** Removal *)

(** C1, as the code has it: [remove_resource] guards only the deletion
    from [_resources]; the broadcast and the clean-up of [subscribers] run
    whether or not the uri was registered.  For a uri that is not in the
    registry, the registry and the session directory stay as they are, the
    uri's entry is dropped from the subscription index, and the trace is
    one full list-changed batch: every session of the directory is sent
    exactly one notification.  Two removals in a row, from any state, send
    every session of the directory two notifications, one per call. *)
Theorem remove_resource_absent_still_broadcasts (uri : string) (st : State) :
  resources st !! uri = None →
  let r := remove_resource uri st in
  resources (state_of r) = resources st
  ∧ all_sessions (state_of r) = all_sessions st
  ∧ subscribers (state_of r) = delete uri (subscribers st)
  ∧ trace_of r = list_changed_batch st
  ∧ (∀ sess, sess ∈ all_sessions st →
       occurrences (SendResourceListChanged sess) (trace_of r) = 1)
  ∧ (∀ st0 sess, sess ∈ all_sessions st0 →
       occurrences (SendResourceListChanged sess)
         (trace_of ((remove_resource uri ;;; remove_resource uri) st0)) = 2).
Proof.
  intros Habs r. subst r. rewrite remove_resource_run.
  split_and!; try done.
  - by apply delete_id.
  - intros sess Hin. unfold trace_of; simpl.
    rewrite list_changed_batch_occurrences. by rewrite decide_True.
  - intros st0 sess Hin.
    rewrite remove_resource_twice_trace, occurrences_app.
    rewrite list_changed_batch_occurrences. by rewrite decide_True.
Qed.

(** C4: for a uri that is in the registry, [remove_resource] deletes the
    registry entry, drops the uri's entry of the subscription index
    (whoever was subscribed), leaves the other entries alone, and writes
    one list-changed batch; afterwards [subscribers.get(uri, [])] is
    empty. *)
Theorem remove_resource_present_cascades (uri : string) (st : State) :
  is_Some (resources st !! uri) →
  let r := remove_resource uri st in
  resources (state_of r) = delete uri (resources st)
  ∧ resources (state_of r) !! uri = None
  ∧ subscribers (state_of r) !! uri = None
  ∧ subscribers_get (subscribers (state_of r)) uri = ∅
  ∧ (∀ key, key ≠ uri →
       subscribers (state_of r) !! key = subscribers st !! key)
  ∧ all_sessions (state_of r) = all_sessions st
  ∧ trace_of r = list_changed_batch st
  ∧ (∀ sess, sess ∈ all_sessions st →
       occurrences (SendResourceListChanged sess) (trace_of r) = 1).
Proof.
  intros Hin r. subst r. rewrite remove_resource_run.
  unfold state_of, trace_of, subscribers_get; simpl.
  split_and!; try done.
  - apply lookup_delete_eq.
  - apply lookup_delete_eq.
  - by rewrite lookup_delete_eq.
  - intros key Hne. by apply lookup_delete_ne.
  - intros sess Hs. rewrite list_changed_batch_occurrences.
    by rewrite decide_True.
Qed.

(** ** Addition *)

(** C3: when the wrapped framework method inserts or replaces by uri,
    [add_resource] leaves the registry with the resource stored under its
    uri, whatever was stored there before, touches no other entry, and
    writes exactly one list-changed batch: one notification for every
    session of the directory and none for any other session. *)
Theorem add_resource_upserts_and_broadcasts
    (orig_add : Resource → gmap string Resource → gmap string Resource)
    (resource : Resource) (st : State) :
  (∀ r rs, orig_add r rs = upsert_add r rs) →
  let r := add_resource orig_add resource st in
  resources (state_of r) = <[uri resource := resource]> (resources st)
  ∧ resources (state_of r) !! uri resource = Some resource
  ∧ (∀ key, key ≠ uri resource →
       resources (state_of r) !! key = resources st !! key)
  ∧ subscribers (state_of r) = subscribers st
  ∧ all_sessions (state_of r) = all_sessions st
  ∧ trace_of r = list_changed_batch st
  ∧ (∀ sess, occurrences (SendResourceListChanged sess) (trace_of r)
             = if decide (sess ∈ all_sessions st) then 1 else 0).
Proof.
  intros Hadd r. subst r. rewrite add_resource_run.
  unfold state_of, trace_of; simpl. rewrite Hadd. unfold upsert_add.
  split_and!; try done.
  - apply lookup_insert_eq.
  - intros key Hne. by apply lookup_insert_ne.
  - intros sess. apply list_changed_batch_occurrences.
Qed.

(** ** Subscriptions *)

Lemma _on_subscribe_run uri sess st :
  _on_subscribe uri sess st
  = ((),
     set_subscribers
       (λ subs, <[uri := {[sess]} ∪ subscribers_get subs uri]> subs) st,
     [LogSubscribe uri
        (elements ({[sess]} ∪ subscribers_get (subscribers st) uri))]).
Proof.
  unfold _on_subscribe, bind, modify, get, emit, set_subscribers,
    subscribers_getitem, subscribers_get; simpl.
  destruct (subscribers st !! uri) as [s|] eqn:E; simpl.
  - by rewrite lookup_insert_eq.
  - by rewrite lookup_insert_eq, insert_insert_eq.
Qed.

Lemma _on_unsubscribe_run uri sess st :
  _on_unsubscribe uri sess st
  = ((),
     set_subscribers
       (λ subs, <[uri := subscribers_get subs uri ∖ {[sess]}]> subs) st,
     [LogUnsubscribe uri
        (elements (subscribers_get (subscribers st) uri ∖ {[sess]}))]).
Proof.
  unfold _on_unsubscribe, bind, modify, get, emit, set_subscribers,
    subscribers_getitem, subscribers_get; simpl.
  destruct (subscribers st !! uri) as [s|] eqn:E; simpl.
  - by rewrite lookup_insert_eq.
  - by rewrite lookup_insert_eq, insert_insert_eq.
Qed.

Lemma subscribers_get_insert subs key key' s :
  subscribers_get (<[key := s]> subs) key'
  = if decide (key = key') then s else subscribers_get subs key'.
Proof.
  unfold subscribers_get. rewrite lookup_insert.
  by destruct (decide (key = key')).
Qed.


(** C9: when the uri has no entry in the subscription index,
    [_on_unsubscribe] stores an empty set under it: [subscribers[key]]
    on the [defaultdict] creates the entry before [discard] runs, so the
    index is not what it was. *)
Theorem unsubscribe_creates_empty_entry
    (uri : string) (sess : Session) (st : State) :
  subscribers st !! uri = None →
  let st' := state_of (_on_unsubscribe uri sess st) in
  subscribers st' !! uri = Some ∅
  ∧ subscribers st' = <[uri := ∅]> (subscribers st)
  ∧ subscribers st' ≠ subscribers st.
Proof.
  intros Hnone st'. subst st'. rewrite _on_unsubscribe_run.
  unfold state_of, set_subscribers, subscribers_get; simpl.
  rewrite Hnone; simpl.
  assert (∅ ∖ {[sess]} = (∅ : gset Session)) as -> by set_solver.
  split_and!.
  - apply lookup_insert_eq.
  - done.
  - intros Heq. apply (f_equal (λ m, m !! uri)) in Heq.
    rewrite lookup_insert_eq, Hnone in Heq. discriminate.
Qed.


(** ** Loops in closed form *)

Lemma for_each_run {X} (body : X → M unit)
    (upd : X → State → State) (tr : X → State → list event)
    (l : list X) (st : State) :
  (∀ x st, body x st = ((), upd x st, tr x st)) →
  (∀ x y st, tr x (upd y st) = tr x st) →
  for_each l body st
  = ((), foldl (λ s x, upd x s) st l, l ≫= (λ x, tr x st)).
Proof.
  intros Hbody Hstable. revert st.
  induction l as [|x l IH]; intros st; [done|].
  cbn [for_each foldl]. unfold bind. rewrite Hbody, IH, bind_cons.
  do 2 f_equal. apply list_bind_ext; [|done].
  intros y. apply Hstable.
Qed.

Lemma foldl_state_ind {X} (P : State → Prop) (upd : X → State → State)
    (l : list X) (st : State) :
  (∀ x st, P st → P (upd x st)) → P st → P (foldl (λ s x, upd x s) st l).
Proof.
  intros Hupd. revert st.
  induction l as [|x l IH]; intros st Hst; [done|].
  simpl. by apply IH, Hupd.
Qed.

Lemma notify_updated_run uri st :
  notify_updated uri st = ((), st, resource_updated_batch st uri).
Proof.
  unfold notify_updated, bind, get; simpl.
  by rewrite (for_each_emit (λ sess, SendResourceUpdated sess uri)).
Qed.

Lemma watch_item_run orig_add resolve last_snap item st :
  watch_item orig_add resolve last_snap item st
  = ((), item_update orig_add resolve last_snap item st,
     item_trace resolve last_snap item st).
Proof.
  destruct item as [f mtime].
  unfold watch_item, item_update, item_trace; simpl.
  destruct (last_snap !! f) as [old|] eqn:E.
  - destruct (decide (old ≠ mtime)); [|done].
    unfold bind, emit, get; simpl.
    by rewrite (for_each_emit
                  (λ sess, SendResourceUpdated sess (file_uri resolve f))).
  - unfold bind, emit; simpl. by rewrite add_resource_run.
Qed.

Lemma watch_deleted_run resolve f st :
  watch_deleted resolve f st
  = ((), deleted_update resolve f st, deleted_trace resolve f st).
Proof.
  unfold watch_deleted, bind, emit; simpl.
  by rewrite remove_resource_run.
Qed.

Lemma item_update_subscribers orig_add resolve last_snap item st :
  subscribers (item_update orig_add resolve last_snap item st) = subscribers st.
Proof. unfold item_update. by destruct (last_snap !! item.1). Qed.

Lemma item_update_all_sessions orig_add resolve last_snap item st :
  all_sessions (item_update orig_add resolve last_snap item st) = all_sessions st.
Proof. unfold item_update. by destruct (last_snap !! item.1). Qed.

Lemma item_trace_stable orig_add resolve last_snap item item' st :
  item_trace resolve last_snap item
    (item_update orig_add resolve last_snap item' st)
  = item_trace resolve last_snap item st.
Proof.
  unfold item_trace, list_changed_batch, resource_updated_batch.
  by rewrite item_update_subscribers, item_update_all_sessions.
Qed.

Lemma deleted_trace_stable resolve f f' st :
  deleted_trace resolve f (deleted_update resolve f' st)
  = deleted_trace resolve f st.
Proof. done. Qed.

Lemma watch_cycle_run orig_add resolve last_snap current st :
  let st1 :=
    foldl (λ s item, item_update orig_add resolve last_snap item s) st
      (map_to_list current) in
  watch_cycle orig_add resolve last_snap current st
  = (current,
     foldl (λ s f, deleted_update resolve f s) st1
       (removed_files last_snap current),
     ((map_to_list current ≫= (λ item, item_trace resolve last_snap item st))
      ++ (removed_files last_snap current
            ≫= (λ f, deleted_trace resolve f st1)))%list).
Proof.
  intros st1. unfold watch_cycle, bind.
  rewrite (for_each_run _ (item_update orig_add resolve last_snap)
             (item_trace resolve last_snap)).
  - fold st1.
    rewrite (for_each_run _ (deleted_update resolve) (deleted_trace resolve)).
    + unfold ret, removed_files. by rewrite (right_id_L [] (++)).
    + intros x st0. apply watch_deleted_run.
    + intros x y st0. apply deleted_trace_stable.
  - intros x st0. apply watch_item_run.
  - intros x y st0. apply item_trace_stable.
Qed.

Lemma watch_cycle_all_sessions orig_add resolve last_snap current st :
  all_sessions (state_of (watch_cycle orig_add resolve last_snap current st))
  = all_sessions st.
Proof.
  rewrite watch_cycle_run. unfold state_of; simpl.
  apply (foldl_state_ind (λ s, all_sessions s = all_sessions st)
           (deleted_update resolve)); [done|].
  apply (foldl_state_ind (λ s, all_sessions s = all_sessions st)
           (item_update orig_add resolve last_snap)); [|done].
  intros x s Hs. by rewrite item_update_all_sessions.
Qed.

(** After a cycle every stored entry of the index is an entry it had
    before: the cycle only deletes. *)
Lemma watch_cycle_subscribers orig_add resolve last_snap current st :
  subscribers (state_of (watch_cycle orig_add resolve last_snap current st))
  ⊆ subscribers st.
Proof.
  rewrite watch_cycle_run. unfold state_of; simpl.
  apply (foldl_state_ind (λ s, subscribers s ⊆ subscribers st)
           (deleted_update resolve)).
  - intros f s Hs. simpl. etrans; [apply delete_subseteq|done].
  - apply (foldl_state_ind (λ s, subscribers s ⊆ subscribers st)
             (item_update orig_add resolve last_snap)); [|done].
    intros x s Hs. by rewrite item_update_subscribers.
Qed.

Lemma subscribers_get_subseteq
    (subs subs' : gmap string (gset Session)) (key : string) :
  subs ⊆ subs' → subscribers_get subs key ⊆ subscribers_get subs' key.
Proof.
  intros Hsub. unfold subscribers_get.
  destruct (subs !! key) as [s|] eqn:E; simpl; [|set_solver].
  by rewrite (lookup_weaken _ _ _ _ E Hsub).
Qed.

Lemma no_empty_entry_subseteq (subs subs' : gmap string (gset Session)) :
  subs ⊆ subs' → no_empty_entry subs' → no_empty_entry subs.
Proof.
  intros Hsub Hinv key s Hs. apply (Hinv key).
  by apply (lookup_weaken _ _ _ _ Hs Hsub).
Qed.

Lemma _tracked_list_run orig_list sess st :
  _tracked_list orig_list sess st
  = (match orig_list with
     | Some handler => handler (resources st)
     | None => []
     end,
     set_all_sessions (λ s, {[sess]} ∪ s) st,
     [LogConnect sess]).
Proof.
  unfold _tracked_list, bind, modify, emit, get, ret; simpl.
  by destruct orig_list.
Qed.

(** The state one operation leaves, field by field. *)
Lemma step_all_sessions orig_add orig_list resolve o last_snap st :
  all_sessions (state_of (step orig_add orig_list resolve o last_snap st))
  = match o with
    | OpList sess => {[sess]} ∪ all_sessions st
    | _ => all_sessions st
    end.
Proof.
  destruct o; cbn [step]; try apply watch_cycle_all_sessions;
    rewrite state_of_bind.
  - by rewrite add_resource_run.
  - by rewrite remove_resource_run.
  - by rewrite _on_subscribe_run.
  - by rewrite _on_unsubscribe_run.
  - by rewrite _tracked_list_run.
Qed.

Lemma step_subscribers orig_add orig_list resolve o last_snap st :
  let subs' :=
    subscribers (state_of (step orig_add orig_list resolve o last_snap st)) in
  match o with
  | OpSubscribe uri sess =>
      subs' = <[uri := {[sess]} ∪ subscribers_get (subscribers st) uri]>
                (subscribers st)
  | OpUnsubscribe uri sess =>
      subs' = <[uri := subscribers_get (subscribers st) uri ∖ {[sess]}]>
                (subscribers st)
  | OpRemove uri => subs' = delete uri (subscribers st)
  | OpAdd _ | OpList _ => subs' = subscribers st
  | OpWatch _ => subs' ⊆ subscribers st
  end.
Proof.
  destruct o; cbn [step]; try apply watch_cycle_subscribers;
    rewrite state_of_bind.
  - by rewrite add_resource_run.
  - by rewrite remove_resource_run.
  - by rewrite _on_subscribe_run.
  - by rewrite _on_unsubscribe_run.
  - by rewrite _tracked_list_run.
Qed.

(** ** Runs *)

Lemma run_cons orig_add orig_list resolve o ops last_snap st :
  let r := step orig_add orig_list resolve o last_snap st in
  state_of (run orig_add orig_list resolve (o :: ops) last_snap st)
  = state_of (run orig_add orig_list resolve ops (value_of r) (state_of r))
  ∧ trace_of (run orig_add orig_list resolve (o :: ops) last_snap st)
    = (trace_of r
       ++ trace_of (run orig_add orig_list resolve ops (value_of r) (state_of r)))%list.
Proof.
  intros r. subst r. cbn [run].
  by rewrite state_of_bind, trace_of_bind.
Qed.

Lemma run_all_sessions orig_add orig_list resolve ops last_snap st :
  all_sessions st
  ⊆ all_sessions (state_of (run orig_add orig_list resolve ops last_snap st)).
Proof.
  revert last_snap st. induction ops as [|o ops IH]; intros last_snap st.
  - done.
  - destruct (run_cons orig_add orig_list resolve o ops last_snap st) as [-> _].
    etrans; [|apply IH]. rewrite step_all_sessions.
    destruct o; set_solver.
Qed.

Lemma filter_eq_not_elem {A} `{EqDecision A} (l : list A) (x : A) :
  x ∉ l → filter (λ y, y = x) l = [].
Proof.
  induction l as [|y l IH]; [done|].
  rewrite not_elem_of_cons, filter_cons. intros [Hne Hnot].
  rewrite decide_False by done. by apply IH.
Qed.

Lemma filter_eq_NoDup_length {A} `{EqDecision A} (l : list A) (x : A) :
  NoDup l → x ∈ l → length (filter (λ y, y = x) l) = 1.
Proof.
  induction 1 as [|y l Hy Hnd IH]; [by intros ?%elem_of_nil|].
  rewrite elem_of_cons, filter_cons. intros [->|Hin].
  - rewrite decide_True by done. simpl.
    by rewrite filter_eq_not_elem.
  - rewrite decide_False; [by apply IH|]. by intros ->.
Qed.

(** ** The session directory *)

(** C8: [_tracked_list] puts the calling session into [all_sessions] and
    answers with what the wrapped handler computes from the registry (or
    the empty list when there is none), changing nothing else.  A second
    request by the same session changes nothing at all, and after any
    further list requests, by whichever sessions, the session is still in
    the directory and is met exactly once when the directory is
    iterated. *)
Theorem tracked_list_registers_session_once
    (orig_add : Resource → gmap string Resource → gmap string Resource)
    (orig_list : option (gmap string Resource → list Resource))
    (resolve : Path → string) (sess : Session) (st : State) :
  let r := _tracked_list orig_list sess st in
  all_sessions (state_of r) = {[sess]} ∪ all_sessions st
  ∧ sess ∈ all_sessions (state_of r)
  ∧ resources (state_of r) = resources st
  ∧ subscribers (state_of r) = subscribers st
  ∧ value_of r = match orig_list with
                 | Some handler => handler (resources st)
                 | None => []
                 end
  ∧ state_of (_tracked_list orig_list sess (state_of r)) = state_of r
  ∧ (∀ (others : list Session) last_snap,
       let st' :=
         state_of (run orig_add orig_list resolve (OpList <$> others)
                     last_snap (state_of r)) in
       sess ∈ all_sessions st'
       ∧ length (filter (λ s, s = sess) (elements (all_sessions st'))) = 1)
  ∧ (∀ (n : nat) last_snap,
       state_of (run orig_add orig_list resolve (replicate n (OpList sess))
                   last_snap (state_of r))
       = state_of r).
Proof.
  intros r. subst r. rewrite _tracked_list_run.
  change (state_of (?a, ?s, ?t)) with s. change (value_of (?a, ?s, ?t)) with a.
  set (st1 := set_all_sessions (λ s, {[sess]} ∪ s) st).
  assert (Hidem : ∀ s0, sess ∈ all_sessions s0 →
            state_of (_tracked_list orig_list sess s0) = s0).
  { intros s0 Hin. rewrite _tracked_list_run.
    unfold state_of, set_all_sessions; simpl.
    destruct s0 as [rs subs all]; simpl in *. f_equal. set_solver. }
  assert (Hin1 : sess ∈ all_sessions st1) by (simpl; set_solver).
  split_and!; try done.
  - by apply Hidem.
  - intros others last_snap st'.
    assert (sess ∈ all_sessions st') as Hin.
    { subst st'. by apply run_all_sessions. }
    split; [done|].
    apply filter_eq_NoDup_length; [apply NoDup_elements|].
    by apply elem_of_elements.
  - intros n last_snap. revert Hin1. generalize st1.
    induction n as [|n IH]; intros s0 Hin; [done|].
    cbn [replicate].
    destruct (run_cons orig_add orig_list resolve (OpList sess)
                (replicate n (OpList sess)) last_snap s0) as [-> _].
    cbn [step]. rewrite state_of_bind, value_of_bind, Hidem by done.
    unfold ret, value_of; simpl. by apply IH.
Qed.

(** C10: no operation takes a session out of [all_sessions]: the directory
    after one operation, and after any run of operations, contains the
    directory before it.  So a session that issued a list request is
    sent exactly one notification by every later [add_resource] and
    [remove_resource], whatever happened in between. *)
Theorem all_sessions_never_shrinks
    (orig_add : Resource → gmap string Resource → gmap string Resource)
    (orig_list : option (gmap string Resource → list Resource))
    (resolve : Path → string)
    (ops : list op) (last_snap : gmap Path Mtime) (st : State) :
  (∀ o, all_sessions st
        ⊆ all_sessions (state_of (step orig_add orig_list resolve o last_snap st)))
  ∧ all_sessions st
    ⊆ all_sessions (state_of (run orig_add orig_list resolve ops last_snap st))
  ∧ (∀ sess,
       let st1 := state_of (_tracked_list orig_list sess st) in
       let st2 := state_of (run orig_add orig_list resolve ops last_snap st1) in
       sess ∈ all_sessions st2
       ∧ (∀ resource,
            occurrences (SendResourceListChanged sess)
              (trace_of (add_resource orig_add resource st2)) = 1)
       ∧ (∀ uri,
            occurrences (SendResourceListChanged sess)
              (trace_of (remove_resource uri st2)) = 1)).
Proof.
  split_and!.
  - intros o. rewrite step_all_sessions. destruct o; set_solver.
  - apply run_all_sessions.
  - intros sess st1 st2.
    assert (sess ∈ all_sessions st2) as Hin.
    { subst st2. apply run_all_sessions. subst st1.
      rewrite _tracked_list_run. unfold state_of; simpl. set_solver. }
    split_and!; [done| |].
    + intros resource. rewrite add_resource_run. unfold trace_of; simpl.
      rewrite list_changed_batch_occurrences. by rewrite decide_True.
    + intros uri. rewrite remove_resource_run. unfold trace_of; simpl.
      rewrite list_changed_batch_occurrences. by rewrite decide_True.
Qed.

(** ** The subscription index *)

(** C2, as the code has it: [_on_subscribe], [add_resource],
    [remove_resource], [_tracked_list] and every poll cycle leave an index
    without empty sets when they start from one.  [_on_unsubscribe] does
    not: afterwards the uri always has an entry, holding the sessions that
    were interested minus the caller, and the index is without empty sets
    exactly when another session is still interested. *)
Theorem no_empty_entry_kept_except_by_unsubscribe
    (orig_add : Resource → gmap string Resource → gmap string Resource)
    (orig_list : option (gmap string Resource → list Resource))
    (resolve : Path → string)
    (o : op) (last_snap : gmap Path Mtime) (st : State) :
  no_empty_entry (subscribers st) →
  let subs' :=
    subscribers (state_of (step orig_add orig_list resolve o last_snap st)) in
  match o with
  | OpUnsubscribe uri sess =>
      subs' = <[uri := subscribers_get (subscribers st) uri ∖ {[sess]}]>
                (subscribers st)
      ∧ (no_empty_entry subs'
         ↔ subscribers_get (subscribers st) uri ∖ {[sess]} ≠ ∅)
  | _ => no_empty_entry subs'
  end.
Proof.
  intros Hinv subs'.
  pose proof (step_subscribers orig_add orig_list resolve o last_snap st)
    as Hstep.
  fold subs' in Hstep. clearbody subs'.
  destruct o as [r|u|u s|u s|s|cur]; simpl in Hstep; subst.
  - done.
  - intros key s Hs. apply lookup_delete_Some in Hs as [_ Hs].
    by apply (Hinv key).
  - intros key s0 Hs. apply lookup_insert_Some in Hs as [[_ <-]|[_ Hs]].
    + set_solver.
    + by apply (Hinv key).
  - split; [done|]. split.
    + intros Hinv'. apply (Hinv' u). apply lookup_insert_eq.
    + intros Hne key s0 Hs.
      apply lookup_insert_Some in Hs as [[_ <-]|[_ Hs]]; [done|].
      by apply (Hinv key).
  - done.
  - by apply (no_empty_entry_subseteq _ _ Hstep).
Qed.

(** ** Resource-updated notifications *)

Lemma item_trace_updated resolve last_snap item st sess uri :
  SendResourceUpdated sess uri ∈ item_trace resolve last_snap item st →
  sess ∈ subscribers_get (subscribers st) uri.
Proof.
  unfold item_trace, list_changed_batch, resource_updated_batch.
  destruct (last_snap !! item.1) as [old|].
  - destruct (decide (old ≠ item.2)); [|by intros ?%elem_of_nil].
    rewrite elem_of_cons. intros [[=]|Hin].
    apply list_elem_of_fmap in Hin as (s & [= -> ->] & Hs).
    by apply elem_of_elements in Hs.
  - rewrite !elem_of_cons. intros [[=]|[[=]|Hin]].
    by apply list_elem_of_fmap in Hin as (s & [=] & _).
Qed.

Lemma deleted_trace_updated resolve f st sess uri :
  SendResourceUpdated sess uri ∉ deleted_trace resolve f st.
Proof.
  unfold deleted_trace, list_changed_batch.
  rewrite !elem_of_cons. intros [[=]|[[=]|Hin]].
  by apply list_elem_of_fmap in Hin as (s & [=] & _).
Qed.

Lemma list_changed_batch_updated st sess uri :
  SendResourceUpdated sess uri ∉ list_changed_batch st.
Proof.
  unfold list_changed_batch. rewrite elem_of_cons. intros [[=]|Hin].
  by apply list_elem_of_fmap in Hin as (s & [=] & _).
Qed.

Lemma step_trace_updated orig_add orig_list resolve o last_snap st sess uri :
  SendResourceUpdated sess uri
    ∈ trace_of (step orig_add orig_list resolve o last_snap st) →
  sess ∈ subscribers_get (subscribers st) uri.
Proof.
  destruct o as [r|u|u s|u s|s|cur]; cbn [step].
  - rewrite trace_of_bind, add_resource_run. unfold trace_of; simpl.
    rewrite (right_id_L [] (++)).
    by intros ?%list_changed_batch_updated.
  - rewrite trace_of_bind, remove_resource_run. unfold trace_of; simpl.
    rewrite (right_id_L [] (++)).
    by intros ?%list_changed_batch_updated.
  - rewrite trace_of_bind, _on_subscribe_run. unfold trace_of; simpl.
    rewrite elem_of_cons. by intros [[=]|?%elem_of_nil].
  - rewrite trace_of_bind, _on_unsubscribe_run. unfold trace_of; simpl.
    rewrite elem_of_cons. by intros [[=]|?%elem_of_nil].
  - rewrite trace_of_bind, _tracked_list_run. unfold trace_of; simpl.
    rewrite elem_of_cons. by intros [[=]|?%elem_of_nil].
  - rewrite watch_cycle_run. unfold trace_of; simpl.
    rewrite elem_of_app, !list_elem_of_bind.
    intros [(item & Hin & _)|(f & Hin & _)].
    + by eapply item_trace_updated.
    + by apply deleted_trace_updated in Hin.
Qed.

Lemma step_keeps_unsubscribed orig_add orig_list resolve o last_snap st sess uri :
  o ≠ OpSubscribe uri sess →
  sess ∉ subscribers_get (subscribers st) uri →
  sess ∉ subscribers_get
           (subscribers (state_of (step orig_add orig_list resolve o last_snap st)))
           uri.
Proof.
  intros Ho Hout.
  pose proof (step_subscribers orig_add orig_list resolve o last_snap st)
    as Hstep.
  simpl in Hstep. revert Hstep.
  generalize (subscribers
                (state_of (step orig_add orig_list resolve o last_snap st))).
  intros subs' Hstep.
  destruct o as [r|u|u s|u s|s|cur]; try subst subs'; try done.
  - unfold subscribers_get in *. rewrite lookup_delete.
    destruct (decide (u = uri)); [set_solver|done].
  - rewrite subscribers_get_insert.
    destruct (decide (u = uri)) as [->|]; [|done].
    assert (s ≠ sess) by congruence. set_solver.
  - rewrite subscribers_get_insert.
    destruct (decide (u = uri)) as [->|]; [|done]. set_solver.
  - intros Hin. apply Hout. by eapply subscribers_get_subseteq.
Qed.

(** C5: in one operation, and so in every run, a resource-updated
    notification for a uri goes only to sessions that are interested in
    that uri when the operation starts.  A session subscribed to [A] and
    not to [B] is sent none for [B], and stays without any for as long as
    it does not subscribe to [B]. *)
Theorem resource_updated_only_to_subscribers
    (orig_add : Resource → gmap string Resource → gmap string Resource)
    (orig_list : option (gmap string Resource → list Resource))
    (resolve : Path → string)
    (A B : string) (sess : Session)
    (o : op) (last_snap : gmap Path Mtime) (st : State) :
  A ≠ B →
  sess ∈ subscribers_get (subscribers st) A →
  sess ∉ subscribers_get (subscribers st) B →
  (SendResourceUpdated sess B
     ∉ trace_of (step orig_add orig_list resolve o last_snap st))
  ∧ (∀ s uri,
       SendResourceUpdated s uri
         ∈ trace_of (step orig_add orig_list resolve o last_snap st) →
       s ∈ subscribers_get (subscribers st) uri)
  ∧ (∀ ops,
       OpSubscribe B sess ∉ ops →
       SendResourceUpdated sess B
         ∉ trace_of (run orig_add orig_list resolve ops last_snap st)).
Proof.
  intros _ _ Hout. split_and!.
  - intros Hin. by apply step_trace_updated in Hin.
  - intros s uri. apply step_trace_updated.
  - intros ops. revert last_snap st Hout.
    induction ops as [|o' ops IH]; intros last_snap st Hout Hops.
    + by intros ?%elem_of_nil.
    + apply not_elem_of_cons in Hops as [Hne Hops].
      destruct (run_cons orig_add orig_list resolve o' ops last_snap st)
        as [_ ->].
      rewrite elem_of_app. intros [Hin|Hin].
      * by apply step_trace_updated in Hin.
      * revert Hin. apply IH; [|done].
        apply step_keeps_unsubscribed; [congruence|done].
Qed.

(** ** The poll cycle against the specification's words *)

Lemma filter_Forall_id {A} (P : A → Prop) `{∀ x, Decision (P x)} (l : list A) :
  Forall P l → filter P l = l.
Proof.
  induction 1 as [|x l Hx Hl IH]; [done|].
  by rewrite filter_cons, decide_True, IH.
Qed.

Lemma calls_trace_app tr1 tr2 :
  calls_trace (tr1 ++ tr2) = (calls_trace tr1 ++ calls_trace tr2)%list.
Proof. apply filter_app. Qed.

Lemma calls_trace_list_changed_batch st :
  calls_trace (list_changed_batch st) = list_changed_batch st.
Proof.
  apply filter_Forall_id. unfold list_changed_batch.
  constructor; [done|]. apply Forall_fmap, Forall_forall. by intros.
Qed.

Lemma calls_trace_resource_updated_batch st uri :
  calls_trace (resource_updated_batch st uri) = resource_updated_batch st uri.
Proof.
  apply filter_Forall_id. unfold resource_updated_batch.
  apply Forall_fmap, Forall_forall. by intros.
Qed.

Lemma foldl_id {X} (l : list X) (st : State) : foldl (λ s _, s) st l = st.
Proof. by induction l. Qed.

(** The registry after the first loop: the New files were added, in the
    order of the listing. *)
Lemma items_update_new orig_add resolve last_snap items st :
  foldl (λ s item, item_update orig_add resolve last_snap item s) st items
  = foldl (λ s f, set_resources (orig_add (file_resource resolve f)) s) st
      (filter (is_new last_snap) items).*1.
Proof.
  revert st. induction items as [|[f m] items IH]; intros st; [done|].
  rewrite filter_cons. cbn [foldl]. rewrite IH.
  unfold item_update at 1, is_new at 2; simpl.
  destruct (decide (last_snap !! f = None)) as [E|E].
  - by rewrite E.
  - by destruct (last_snap !! f).
Qed.

(** The calls of the first loop, regrouped: the batches of the New files,
    then the notifications of the Modified ones. *)
Lemma items_trace_regrouped resolve last_snap items st :
  calls_trace (items ≫= (λ item, item_trace resolve last_snap item st))
  ≡ₚ (((filter (is_new last_snap) items).*1
         ≫= (λ _, list_changed_batch st))
      ++ ((filter (is_modified last_snap) items).*1
            ≫= (λ f, resource_updated_batch st (file_uri resolve f))))%list.
Proof.
  induction items as [|[f m] items IH]; [done|].
  rewrite bind_cons, calls_trace_app, !filter_cons, IH. clear IH.
  unfold item_trace at 1. cbn [fst snd].
  destruct (decide (is_new last_snap (f, m))) as [Hnew|Hnew];
    destruct (decide (is_modified last_snap (f, m))) as [Hmod|Hmod];
    unfold is_new, is_modified in Hnew, Hmod; cbn [fst snd] in Hnew, Hmod.
  - destruct Hmod as (old & Hold & _). congruence.
  - rewrite Hnew, fmap_cons, bind_cons.
    change (calls_trace (?e :: ?tr)) with (calls_trace tr).
    rewrite calls_trace_list_changed_batch.
    by rewrite (assoc_L (++)).
  - destruct Hmod as (old & Hold & Hne).
    rewrite Hold, decide_True by done.
    rewrite fmap_cons, bind_cons. cbn [fst].
    change (calls_trace (?e :: ?tr)) with (calls_trace tr).
    rewrite calls_trace_resource_updated_batch.
    by rewrite Permutation_app_swap_app.
  - destruct (last_snap !! f) as [old|] eqn:E; [|done].
    destruct (decide (old ≠ m)); [|done].
    exfalso. apply Hmod. eauto.
Qed.

Lemma deleted_trace_calls resolve (files : list Path) st :
  calls_trace (files ≫= (λ f, deleted_trace resolve f st))
  = files ≫= (λ _, list_changed_batch st).
Proof.
  induction files as [|f files IH]; [done|].
  rewrite !bind_cons, calls_trace_app, IH. f_equal.
  unfold deleted_trace.
  change (calls_trace (?e :: ?tr)) with (calls_trace tr).
  apply calls_trace_list_changed_batch.
Qed.

Lemma spec_cycle_run orig_add resolve last_snap current st :
  let st1 :=
    foldl (λ s f, set_resources (orig_add (file_resource resolve f)) s) st
      (new_files last_snap current) in
  spec_cycle orig_add resolve last_snap current st
  = (current,
     foldl (λ s f, deleted_update resolve f s) st1
       (removed_files last_snap current),
     ((new_files last_snap current ≫= (λ _, list_changed_batch st))
      ++ (modified_files last_snap current
            ≫= (λ f, resource_updated_batch st1 (file_uri resolve f)))
      ++ (removed_files last_snap current
            ≫= (λ _, list_changed_batch st1)))%list).
Proof.
  intros st1. unfold spec_cycle, bind.
  rewrite (for_each_run _
             (λ f, set_resources (orig_add (file_resource resolve f)))
             (λ _, list_changed_batch)).
  - fold st1.
    rewrite (for_each_run _ (λ _ s, s)
               (λ f s, resource_updated_batch s (file_uri resolve f))).
    + rewrite foldl_id.
      rewrite (for_each_run _ (deleted_update resolve)
                 (λ _, list_changed_batch)).
      * unfold ret. by rewrite (right_id_L [] (++)).
      * intros f s. apply remove_resource_run.
      * done.
    + intros f s. apply notify_updated_run.
    + done.
  - intros f s. apply add_resource_run.
  - done.
Qed.

Lemma new_files_spec last_snap current :
  NoDup (new_files last_snap current)
  ∧ ∀ f, f ∈ new_files last_snap current
         ↔ is_Some (current !! f) ∧ last_snap !! f = None.
Proof.
  unfold new_files. split.
  - eapply sublist_NoDup; [apply (NoDup_fst_map_to_list current)|].
    apply fmap_sublist, sublist_filter.
  - intros f. rewrite list_elem_of_fmap. split.
    + intros ([f' m] & -> & [Hnew Hin]%list_elem_of_filter).
      apply elem_of_map_to_list in Hin. split; [by eexists|done].
    + intros [[m Hm] Hnone]. exists (f, m). split; [done|].
      apply list_elem_of_filter. split; [done|].
      by apply elem_of_map_to_list.
Qed.

Lemma modified_files_spec last_snap current :
  NoDup (modified_files last_snap current)
  ∧ ∀ f, f ∈ modified_files last_snap current
         ↔ ∃ old new,
             last_snap !! f = Some old ∧ current !! f = Some new ∧ old ≠ new.
Proof.
  unfold modified_files. split.
  - eapply sublist_NoDup; [apply (NoDup_fst_map_to_list current)|].
    apply fmap_sublist, sublist_filter.
  - intros f. rewrite list_elem_of_fmap. split.
    + intros ([f' m] & -> & [(old & Hold & Hne) Hin]%list_elem_of_filter).
      apply elem_of_map_to_list in Hin. by exists old, m.
    + intros (old & new & Hold & Hnew & Hne). exists (f, new).
      split; [done|]. apply list_elem_of_filter. split.
      * by exists old.
      * by apply elem_of_map_to_list.
Qed.

Lemma removed_files_spec last_snap current :
  NoDup (removed_files last_snap current)
  ∧ ∀ f, f ∈ removed_files last_snap current
         ↔ is_Some (last_snap !! f) ∧ current !! f = None.
Proof.
  unfold removed_files. split; [apply NoDup_elements|].
  intros f.
  by rewrite elem_of_elements, elem_of_difference, elem_of_dom,
    not_elem_of_dom.
Qed.

(** C6: one poll cycle does what steps 3 to 6 of section 4.5 say.  It
    returns [current] as the next snapshot; it leaves the state that
    adding every New file, notifying every Modified file and removing
    every Removed file leaves; and, its own log lines aside, its trace is
    a rearrangement of the trace of those calls.  Each of the three lists
    of files names every file of its class once: New is in [current] and
    not in the snapshot, Modified is in both with different timestamps,
    Removed is in the snapshot and not in [current].  The resource added
    for a New file reads that file when it is read, and notifying a
    Modified file changes no state and sends one notification to each
    session interested in its uri. *)
Theorem watch_cycle_refines_spec_cycle
    (orig_add : Resource → gmap string Resource → gmap string Resource)
    (resolve : Path → string)
    (last_snap current : gmap Path Mtime) (st : State) :
  let r := watch_cycle orig_add resolve last_snap current st in
  let r' := spec_cycle orig_add resolve last_snap current st in
  value_of r = current
  ∧ state_of r = state_of r'
  ∧ calls_trace (trace_of r) ≡ₚ trace_of r'
  ∧ (NoDup (new_files last_snap current)
     ∧ ∀ f, f ∈ new_files last_snap current
            ↔ is_Some (current !! f) ∧ last_snap !! f = None)
  ∧ (NoDup (modified_files last_snap current)
     ∧ ∀ f, f ∈ modified_files last_snap current
            ↔ ∃ old new,
                last_snap !! f = Some old ∧ current !! f = Some new
                ∧ old ≠ new)
  ∧ (NoDup (removed_files last_snap current)
     ∧ ∀ f, f ∈ removed_files last_snap current
            ↔ is_Some (last_snap !! f) ∧ current !! f = None)
  ∧ (∀ f fs,
       uri (file_resource resolve f) = file_uri resolve f
       ∧ read_resource fs (file_resource resolve f) = fs f)
  ∧ (∀ u st0,
       state_of (notify_updated u st0) = st0
       ∧ trace_of (notify_updated u st0) = resource_updated_batch st0 u
       ∧ ∀ sess,
           occurrences (SendResourceUpdated sess u)
             (trace_of (notify_updated u st0))
           = if decide (sess ∈ subscribers_get (subscribers st0) u)
             then 1 else 0).
Proof.
  intros r r'. subst r r'.
  rewrite watch_cycle_run, spec_cycle_run.
  change (value_of (?a, ?s, ?t)) with a.
  change (state_of (?a, ?s, ?t)) with s.
  change (trace_of (?a, ?s, ?t)) with t.
  rewrite items_update_new. fold (new_files last_snap current).
  set (st1 := foldl _ st (new_files last_snap current)).
  assert (Hsubs : subscribers st1 = subscribers st).
  { subst st1.
    apply (foldl_state_ind (λ s, subscribers s = subscribers st)
             (λ f, set_resources (orig_add (file_resource resolve f))));
      done. }
  assert (Hall : all_sessions st1 = all_sessions st).
  { subst st1.
    apply (foldl_state_ind (λ s, all_sessions s = all_sessions st)
             (λ f, set_resources (orig_add (file_resource resolve f))));
      done. }
  split_and!.
  - done.
  - done.
  - rewrite calls_trace_app, items_trace_regrouped, deleted_trace_calls.
    fold (new_files last_snap current) (modified_files last_snap current).
    rewrite <- (assoc_L (++)).
    unfold resource_updated_batch. by rewrite Hsubs.
  - apply new_files_spec.
  - apply new_files_spec.
  - apply modified_files_spec.
  - apply modified_files_spec.
  - apply removed_files_spec.
  - apply removed_files_spec.
  - done.
  - intros u st0. rewrite notify_updated_run.
    change (state_of (?a, ?s, ?t)) with s.
    change (trace_of (?a, ?s, ?t)) with t.
    split_and!; [done..|].
    intros sess. unfold resource_updated_batch.
    destruct (decide (sess ∈ subscribers_get (subscribers st0) u))
      as [Hin|Hout].
    + apply (occurrences_fmap_NoDup (λ s, SendResourceUpdated s u)).
      * apply NoDup_elements.
      * by apply elem_of_elements.
    + apply occurrences_not_elem.
      intros (z & [= ->] & Hz%elem_of_elements)%list_elem_of_fmap. done.
Qed.

(** * Concrete runs *)

(** C1 as stated fails: with [uri_a] not registered and [session_1] in the
    directory, [remove_resource] still writes a batch with a notification
    to [session_1]; and removing the registered [uri_a] twice sends
    [session_1] two notifications. *)
Lemma remove_resource_absent_notifies :
  resources st_listed !! uri_a = None
  ∧ trace_of (remove_resource uri_a st_listed)
    = [LogListChanged [session_1]; SendResourceListChanged session_1]
  ∧ is_Some (resources st_registered !! uri_a)
  ∧ notifications
      (trace_of ((remove_resource uri_a ;;; remove_resource uri_a) st_registered))
    = [SendResourceListChanged session_1; SendResourceListChanged session_1].
Proof.
  split_and!.
  - done.
  - by vm_compute.
  - by eexists.
  - by vm_compute.
Qed.

Lemma remove_resource_absent_still_broadcasts_witness :
  trace_of (remove_resource uri_a st_listed) = list_changed_batch st_listed.
Proof.
  apply (remove_resource_absent_still_broadcasts uri_a st_listed).
  reflexivity.
Defined.

Lemma remove_resource_present_cascades_witness :
  subscribers_get (subscribers (state_of (remove_resource uri_a st_registered))) uri_a
  = ∅.
Proof.
  apply (remove_resource_present_cascades uri_a st_registered).
  by eexists.
Defined.

Lemma add_resource_upserts_and_broadcasts_witness :
  resources (state_of (add_resource upsert_add resource_a' st_registered)) !! uri_a
  = Some resource_a'.
Proof.
  apply (add_resource_upserts_and_broadcasts upsert_add resource_a' st_registered).
  reflexivity.
Defined.


Lemma unsubscribe_creates_empty_entry_witness :
  subscribers (state_of (_on_unsubscribe uri_b session_1 st_registered)) !! uri_b
  = Some ∅.
Proof.
  apply (unsubscribe_creates_empty_entry uri_b session_1 st_registered).
  reflexivity.
Defined.

(** C2 as stated fails: [st_registered] stores no empty set, and after
    [session_2], the only subscriber of [uri_a], unsubscribes, the empty
    set is stored under [uri_a]. *)
Lemma unsubscribe_leaves_empty_entry :
  no_empty_entry (subscribers st_registered)
  ∧ subscribers
      (state_of (step upsert_add (Some list_resources) resolve_abs
                   (OpUnsubscribe uri_a session_2) ∅ st_registered)) !! uri_a
    = Some ∅
  ∧ ¬ no_empty_entry
        (subscribers
           (state_of (step upsert_add (Some list_resources) resolve_abs
                        (OpUnsubscribe uri_a session_2) ∅ st_registered))).
Proof.
  split_and!.
  - intros key s Hs. unfold st_registered in Hs; simpl in Hs.
    apply lookup_singleton_Some in Hs as [_ <-]. set_solver.
  - by vm_compute.
  - intros Hinv. apply (Hinv uri_a ∅); by vm_compute.
Qed.

Lemma no_empty_entry_kept_except_by_unsubscribe_witness :
  no_empty_entry
    (subscribers
       (state_of (step upsert_add (Some list_resources) resolve_abs
                    (OpSubscribe uri_b session_1) ∅ st_registered))).
Proof.
  apply (no_empty_entry_kept_except_by_unsubscribe upsert_add
           (Some list_resources) resolve_abs
           (OpSubscribe uri_b session_1) ∅ st_registered).
  intros key s Hs. unfold st_registered in Hs; simpl in Hs.
  apply lookup_singleton_Some in Hs as [_ <-]. set_solver.
Defined.

Lemma resource_updated_only_to_subscribers_witness :
  SendResourceUpdated session_2 uri_b
    ∉ trace_of (step upsert_add (Some list_resources) resolve_abs
                  (OpWatch snap_after) snap_both st_watched).
Proof.
  apply (resource_updated_only_to_subscribers upsert_add
           (Some list_resources) resolve_abs uri_a uri_b session_2
           (OpWatch snap_after) snap_both st_watched).
  - discriminate.
  - vm_compute. set_solver.
  - vm_compute. set_solver.
Defined.

(** The cycle from [snap_before] to [snap_after] in [st_watched]: the
    subscriber of [uri_a] is told of the update, and the directory is
    told twice that the list changed, for [b.txt] and for [c.txt]. *)
Example watch_cycle_notifications :
  notifications
    (trace_of (watch_cycle upsert_add resolve_abs snap_before snap_after
                 st_watched))
  = [SendResourceUpdated session_2 uri_a;
     SendResourceListChanged session_1;
     SendResourceListChanged session_1].
Proof. by vm_compute. Qed.

(** When both files were touched, each subscriber is told of its own uri
    only. *)
Example watch_cycle_scoped_notifications :
  notifications
    (trace_of (watch_cycle upsert_add resolve_abs snap_both snap_after
                 st_watched))
  ≡ₚ [SendResourceUpdated session_2 uri_a;
      SendResourceUpdated session_1 uri_b].
Proof. vm_compute. apply Permutation_refl || apply Permutation_swap. Qed.

(** The startup scan of a directory holding [a.txt] alone registers one
    resource, under the uri of that file, which reads the file when it is
    read. *)
Example start_watcher_registers_file :
  resources (state_of (_start_watcher upsert_add resolve_abs [path_a] st_listed))
  = {[uri_a := resource_a]}.
Proof. by vm_compute. Qed.

(** * Further properties of the watcher and the handlers *)

(** ** Quiet cycles *)

Lemma foldl_state_id {X} (upd : X → State → State) (l : list X) (st : State) :
  (∀ x, x ∈ l → ∀ s, upd x s = s) → foldl (λ s x, upd x s) st l = st.
Proof.
  revert st. induction l as [|x l IH]; intros st Hid; [done|].
  cbn [foldl]. rewrite Hid by apply list_elem_of_here.
  apply IH. intros y Hy. apply Hid. by apply list_elem_of_further.
Qed.

Lemma bind_nil_all {X Y} (f : X → list Y) (l : list X) :
  (∀ x, x ∈ l → f x = []) → l ≫= f = [].
Proof.
  induction l as [|x l IH]; intros Hnil; [done|].
  rewrite bind_cons, Hnil by apply list_elem_of_here.
  apply IH. intros y Hy. apply Hnil. by apply list_elem_of_further.
Qed.

Lemma item_update_known orig_add resolve last_snap item st :
  is_Some (last_snap !! item.1) →
  item_update orig_add resolve last_snap item st = st.
Proof. intros [old Hold]. unfold item_update. by rewrite Hold. Qed.

Lemma removed_files_same_dom (last_snap current : gmap Path Mtime) :
  dom current = dom last_snap → removed_files last_snap current = [].
Proof.
  intros Hdom. unfold removed_files. rewrite Hdom.
  assert (dom last_snap ∖ dom last_snap = (∅ : gset string)) as ->
    by set_solver.
  apply elements_empty.
Qed.

Lemma watch_cycle_same_run orig_add resolve snap st :
  watch_cycle orig_add resolve snap snap st = (snap, st, []).
Proof.
  rewrite watch_cycle_run. rewrite removed_files_same_dom by done.
  cbn [foldl].
  rewrite (foldl_state_id (item_update orig_add resolve snap)).
  - rewrite bind_nil_all.
    + done.
    + intros [f m] Hin%elem_of_map_to_list. unfold item_trace; simpl.
      rewrite Hin. rewrite decide_False; [done|]. intros Hne. by apply Hne.
  - intros [f m] Hin%elem_of_map_to_list s.
    apply item_update_known. by eexists.
Qed.

(** X1: a poll that finds the directory as the snapshot has it does
    nothing: the state is unchanged, no line is logged, no notification
    is sent, and the snapshot stays. *)
Theorem watch_cycle_unchanged_listing_is_silent
    (orig_add : Resource → gmap string Resource → gmap string Resource)
    (resolve : Path → string)
    (snap : gmap Path Mtime) (st : State) :
  watch_cycle orig_add resolve snap snap st = (snap, st, []).
Proof. apply watch_cycle_same_run. Qed.

Lemma watch_resources_settled orig_add resolve snap n st :
  watch_resources orig_add resolve snap (replicate n snap) st = (snap, st, []).
Proof.
  induction n as [|n IH]; [done|].
  cbn [replicate watch_resources]. unfold bind.
  by rewrite watch_cycle_same_run, IH.
Qed.

(** X2: a change is reported once.  When the directory, after changing
    from [last_snap] to [current], stays as it is for any number of
    further polls, the loop leaves the state and the trace of the single
    cycle that saw the change. *)
Theorem watch_resources_reports_change_once
    (orig_add : Resource → gmap string Resource → gmap string Resource)
    (resolve : Path → string)
    (last_snap current : gmap Path Mtime) (n : nat) (st : State) :
  watch_resources orig_add resolve last_snap (current :: replicate n current) st
  = watch_cycle orig_add resolve last_snap current st.
Proof.
  cbn [watch_resources]. unfold bind.
  rewrite watch_cycle_run. cbv zeta.
  rewrite watch_resources_settled. by rewrite (right_id_L [] (++)).
Qed.

Lemma item_trace_list_changed resolve last_snap item st sess :
  is_Some (last_snap !! item.1) →
  SendResourceListChanged sess ∉ item_trace resolve last_snap item st.
Proof.
  intros [old Hold]. unfold item_trace, resource_updated_batch.
  rewrite Hold. destruct (decide (old ≠ item.2)); [|by intros ?%elem_of_nil].
  rewrite elem_of_cons. intros [[=]|Hin].
  by apply list_elem_of_fmap in Hin as (s & [=] & _).
Qed.

(** X3: a cycle in which no file appeared and none disappeared changes
    nothing in the state, registry included, and sends no list-changed
    notification, whatever happened to the timestamps. *)
Theorem watch_cycle_same_files_keeps_state
    (orig_add : Resource → gmap string Resource → gmap string Resource)
    (resolve : Path → string)
    (last_snap current : gmap Path Mtime) (st : State) :
  dom current = dom last_snap →
  let r := watch_cycle orig_add resolve last_snap current st in
  value_of r = current
  ∧ state_of r = st
  ∧ ∀ sess, SendResourceListChanged sess ∉ trace_of r.
Proof.
  intros Hdom r. subst r. rewrite watch_cycle_run.
  rewrite removed_files_same_dom by done.
  change (value_of (?a, ?s, ?t)) with a.
  change (state_of (?a, ?s, ?t)) with s.
  change (trace_of (?a, ?s, ?t)) with t.
  assert (Hknown : ∀ item, item ∈ map_to_list current →
                     is_Some (last_snap !! item.1)).
  { intros [f m] Hin%elem_of_map_to_list. simpl.
    apply elem_of_dom. rewrite <- Hdom. apply elem_of_dom. by eexists. }
  split_and!.
  - done.
  - cbn [foldl]. apply foldl_state_id.
    intros item Hin s. by apply item_update_known, Hknown.
  - intros sess. rewrite elem_of_app, !list_elem_of_bind.
    intros [(item & Hin & Hitem)|(f & _ & Hf%elem_of_nil)]; [|done].
    revert Hin. by apply item_trace_list_changed, Hknown.
Qed.

(** ** What a cycle leaves in the registry and in the index *)

Lemma deleted_fold_lookup resolve (files : list Path) st key :
  let st' := foldl (λ s f, deleted_update resolve f s) st files in
  resources st' !! key
  = (if decide (key ∈ file_uri resolve <$> files) then None
     else resources st !! key)
  ∧ subscribers st' !! key
    = (if decide (key ∈ file_uri resolve <$> files) then None
       else subscribers st !! key)
  ∧ all_sessions st' = all_sessions st.
Proof.
  revert st. induction files as [|f files IH]; intros st.
  - cbv zeta. cbn [foldl]. rewrite fmap_nil.
    by rewrite !decide_False by apply not_elem_of_nil.
  - cbn [foldl]. cbv zeta.
    destruct (IH (deleted_update resolve f st)) as (Hr & Hs & Ha).
    rewrite Hr, Hs, Ha. clear IH Hr Hs Ha.
    unfold deleted_update. cbn [resources subscribers all_sessions].
    rewrite fmap_cons.
    destruct (decide (key ∈ file_uri resolve <$> files)) as [Hin|Hout].
    + rewrite !decide_True by (by apply list_elem_of_further). done.
    + destruct (decide (key = file_uri resolve f)) as [->|Hne].
      * rewrite !decide_True by apply list_elem_of_here.
        by rewrite !lookup_delete_eq.
      * rewrite !decide_False by (by rewrite not_elem_of_cons).
        by rewrite !lookup_delete_ne.
Qed.



Lemma occurrences_elem_zero e tr : occurrences e tr = 0 → e ∉ tr.
Proof.
  induction tr as [|x tr IH]; [intros _; apply not_elem_of_nil|].
  rewrite occurrences_cons, not_elem_of_cons.
  destruct (decide (x = e)) as [->|Hne]; [done|].
  intros Hz. split; [done|]. by apply IH.
Qed.

Lemma file_uri_inj resolve `{!Inj (=) (=) resolve} : Inj (=) (=) (file_uri resolve).
Proof.
  intros f g Heq. unfold file_uri in Heq. simpl in Heq.
  apply (inj resolve). by simplify_eq.
Qed.

Lemma added_fold_lookup_other orig_add resolve (files : list Path) st key :
  (∀ r rs, orig_add r rs = upsert_add r rs) →
  key ∉ file_uri resolve <$> files →
  resources
    (foldl (λ s f, set_resources (orig_add (file_resource resolve f)) s)
       st files) !! key
  = resources st !! key.
Proof.
  intros Hadd. revert st. induction files as [|g files IH]; intros st Hout.
  - done.
  - rewrite fmap_cons, not_elem_of_cons in Hout. destruct Hout as [Hne Hout].
    cbn [foldl]. rewrite IH by done.
    unfold set_resources; cbn [resources]. rewrite Hadd. unfold upsert_add.
    by rewrite lookup_insert_ne.
Qed.

Lemma added_fold_lookup orig_add resolve (files : list Path) st f :
  (∀ r rs, orig_add r rs = upsert_add r rs) →
  f ∈ files →
  (∀ g, g ∈ files → file_uri resolve g = file_uri resolve f → g = f) →
  resources
    (foldl (λ s f, set_resources (orig_add (file_resource resolve f)) s)
       st files) !! file_uri resolve f
  = Some (file_resource resolve f).
Proof.
  intros Hadd. revert st.
  induction files as [|g files IH]; intros st Hin Huniq.
  - by apply elem_of_nil in Hin.
  - cbn [foldl].
    destruct (decide (f ∈ files)) as [Hf|Hf].
    + apply IH; [done|]. intros h Hh. apply Huniq. by apply list_elem_of_further.
    + apply elem_of_cons in Hin as [->|Hin]; [|done].
      rewrite added_fold_lookup_other; [|done|].
      * unfold set_resources; cbn [resources]. rewrite Hadd.
        unfold upsert_add. apply lookup_insert_eq.
      * intros (h & Heq & Hh)%list_elem_of_fmap.
        assert (h = g) as -> by (apply Huniq; [by apply list_elem_of_further|done]).
        done.
Qed.

(** X5: when the framework method upserts and distinct paths resolve to
    distinct strings, a file that appeared is registered after the cycle
    under its uri, with a resource that reads that file. *)
Theorem watch_cycle_registers_new_file
    (orig_add : Resource → gmap string Resource → gmap string Resource)
    (resolve : Path → string)
    (last_snap current : gmap Path Mtime) (st : State) (f : Path) :
  (∀ r rs, orig_add r rs = upsert_add r rs) →
  Inj (=) (=) resolve →
  is_Some (current !! f) →
  last_snap !! f = None →
  resources (state_of (watch_cycle orig_add resolve last_snap current st))
    !! file_uri resolve f
  = Some (file_resource resolve f).
Proof.
  intros Hadd Hinj Hcur Hlast. rewrite watch_cycle_run.
  change (state_of (?a, ?s, ?t)) with s.
  set (st1 := foldl _ st (map_to_list current)).
  destruct (deleted_fold_lookup resolve (removed_files last_snap current)
              st1 (file_uri resolve f)) as (-> & _ & _).
  rewrite decide_False.
  - subst st1. rewrite items_update_new.
    fold (new_files last_snap current).
    apply added_fold_lookup; [done| |].
    + by apply new_files_spec.
    + intros g _ Hg. by apply (file_uri_inj resolve) in Hg.
  - intros (g & Hg & [_ Hgone]%removed_files_spec)%list_elem_of_fmap.
    apply (file_uri_inj resolve) in Hg. subst g.
    rewrite Hgone in Hcur. by destruct Hcur.
Qed.

(** ** Who is told that the list changed, and how often *)

Lemma item_trace_list_changed_count resolve last_snap items st sess :
  occurrences (SendResourceListChanged sess)
    (items ≫= (λ item, item_trace resolve last_snap item st))
  = (if decide (sess ∈ all_sessions st) then 1 else 0)
    * length (filter (is_new last_snap) items).
Proof.
  induction items as [|[f m] items IH]; [by rewrite Nat.mul_0_r|].
  rewrite bind_cons, occurrences_app, IH, filter_cons. clear IH.
  destruct (decide (is_new last_snap (f, m))) as [Hnew|Hnew];
    unfold is_new in Hnew; cbn [fst] in Hnew.
  - unfold item_trace. cbn [fst snd]. rewrite Hnew.
    rewrite occurrences_cons, decide_False by done.
    rewrite list_changed_batch_occurrences. cbn [length]. lia.
  - rewrite occurrences_not_elem; [done|].
    apply item_trace_list_changed. by apply not_eq_None_Some.
Qed.

Lemma deleted_trace_list_changed_count resolve (files : list Path) st sess :
  occurrences (SendResourceListChanged sess)
    (files ≫= (λ f, deleted_trace resolve f st))
  = (if decide (sess ∈ all_sessions st) then 1 else 0) * length files.
Proof.
  induction files as [|f files IH]; [by rewrite Nat.mul_0_r|].
  rewrite bind_cons, occurrences_app, IH. unfold deleted_trace at 1.
  rewrite occurrences_cons, decide_False by done.
  rewrite list_changed_batch_occurrences. cbn [length]. lia.
Qed.

(** X6: in one cycle a session of the directory is sent one list-changed
    notification for every file that appeared and one for every file
    that disappeared; notifications are not merged per cycle.  A session
    outside the directory is sent none. *)
Theorem watch_cycle_list_changed_count
    (orig_add : Resource → gmap string Resource → gmap string Resource)
    (resolve : Path → string)
    (last_snap current : gmap Path Mtime) (st : State) (sess : Session) :
  occurrences (SendResourceListChanged sess)
    (trace_of (watch_cycle orig_add resolve last_snap current st))
  = if decide (sess ∈ all_sessions st)
    then length (new_files last_snap current)
         + length (removed_files last_snap current)
    else 0.
Proof.
  rewrite watch_cycle_run. change (trace_of (?a, ?s, ?t)) with t.
  rewrite occurrences_app, item_trace_list_changed_count,
    deleted_trace_list_changed_count.
  assert (all_sessions
            (foldl (λ s item, item_update orig_add resolve last_snap item s)
               st (map_to_list current))
          = all_sessions st) as ->.
  { apply (foldl_state_ind (λ s, all_sessions s = all_sessions st)
             (item_update orig_add resolve last_snap)); [|done].
    intros x s Hs. by rewrite item_update_all_sessions. }
  unfold new_files. rewrite length_fmap.
  destruct (decide (sess ∈ all_sessions st)); lia.
Qed.

Lemma step_trace_list_changed orig_add orig_list resolve o last_snap st sess :
  SendResourceListChanged sess
    ∈ trace_of (step orig_add orig_list resolve o last_snap st) →
  sess ∈ all_sessions st.
Proof.
  intros Hin. destruct (decide (sess ∈ all_sessions st)) as [|Hout]; [done|].
  exfalso. revert Hin. apply occurrences_elem_zero.
  destruct o as [r|u|u s|u s|s|cur]; cbn [step].
  - rewrite trace_of_bind, add_resource_run.
    change (trace_of (?a, ?s, ?t)) with t.
    change (trace_of (ret _ _)) with (@nil event).
    rewrite (right_id_L [] (++)), list_changed_batch_occurrences.
    by rewrite decide_False.
  - rewrite trace_of_bind, remove_resource_run.
    change (trace_of (?a, ?s, ?t)) with t.
    change (trace_of (ret _ _)) with (@nil event).
    rewrite (right_id_L [] (++)), list_changed_batch_occurrences.
    by rewrite decide_False.
  - rewrite trace_of_bind, _on_subscribe_run.
    change (trace_of (?a, ?s, ?t)) with t.
    change (trace_of (ret _ _)) with (@nil event).
    by rewrite occurrences_app, occurrences_cons, decide_False.
  - rewrite trace_of_bind, _on_unsubscribe_run.
    change (trace_of (?a, ?s, ?t)) with t.
    change (trace_of (ret _ _)) with (@nil event).
    by rewrite occurrences_app, occurrences_cons, decide_False.
  - rewrite trace_of_bind, _tracked_list_run.
    change (trace_of (?a, ?s, ?t)) with t.
    change (trace_of (ret _ _)) with (@nil event).
    by rewrite occurrences_app, occurrences_cons, decide_False.
  - rewrite watch_cycle_run. change (trace_of (?a, ?s, ?t)) with t.
    rewrite occurrences_app, item_trace_list_changed_count,
      deleted_trace_list_changed_count.
    assert (all_sessions
              (foldl (λ s item, item_update orig_add resolve last_snap item s)
                 st (map_to_list cur))
            = all_sessions st) as ->.
    { apply (foldl_state_ind (λ s, all_sessions s = all_sessions st)
               (item_update orig_add resolve last_snap)); [|done].
      intros x s Hs. by rewrite item_update_all_sessions. }
    by rewrite decide_False.
Qed.

(** X7: list-changed notifications go only to sessions that are in the
    directory when the operation starts.  A session that is not in the
    directory and issues no list request is sent none in any run,
    whatever it subscribes to. *)
Theorem list_changed_only_to_listed_sessions
    (orig_add : Resource → gmap string Resource → gmap string Resource)
    (orig_list : option (gmap string Resource → list Resource))
    (resolve : Path → string)
    (sess : Session) (ops : list op)
    (last_snap : gmap Path Mtime) (st : State) :
  sess ∉ all_sessions st →
  OpList sess ∉ ops →
  SendResourceListChanged sess
    ∉ trace_of (run orig_add orig_list resolve ops last_snap st).
Proof.
  revert last_snap st.
  induction ops as [|o ops IH]; intros last_snap st Hout Hops.
  - by intros ?%elem_of_nil.
  - apply not_elem_of_cons in Hops as [Hne Hops].
    destruct (run_cons orig_add orig_list resolve o ops last_snap st)
      as [_ ->].
    rewrite elem_of_app. intros [Hin|Hin].
    + by apply step_trace_list_changed in Hin.
    + revert Hin. apply IH; [|done].
      rewrite step_all_sessions.
      destruct o; try done. set_solver.
Qed.

(** X8: after any run the directory holds the sessions it held before
    and the sessions that issued a list request in the run, and no
    other. *)
Theorem all_sessions_after_run
    (orig_add : Resource → gmap string Resource → gmap string Resource)
    (orig_list : option (gmap string Resource → list Resource))
    (resolve : Path → string)
    (ops : list op) (last_snap : gmap Path Mtime) (st : State) :
  all_sessions (state_of (run orig_add orig_list resolve ops last_snap st))
  = all_sessions st ∪ listing_sessions ops.
Proof.
  revert last_snap st. induction ops as [|o ops IH]; intros last_snap st.
  - unfold listing_sessions. simpl. set_solver.
  - destruct (run_cons orig_add orig_list resolve o ops last_snap st)
      as [-> _].
    rewrite IH, step_all_sessions. unfold listing_sessions.
    destruct o; cbn [omap list_omap list_to_set]; set_solver.
Qed.

(** ** Adding, removing and re-creating *)

(** X9: when the framework method upserts, adding a resource and then
    removing its uri leaves the registry without that uri, so as it was
    when the uri was not registered before; the subscribers the uri had
    before the addition are dropped all the same, and the directory is
    sent two batches. *)
Theorem add_then_remove_round_trip
    (orig_add : Resource → gmap string Resource → gmap string Resource)
    (resource : Resource) (st : State) :
  (∀ r rs, orig_add r rs = upsert_add r rs) →
  let r := (add_resource orig_add resource ;;;
            remove_resource (uri resource)) st in
  resources (state_of r) = delete (uri resource) (resources st)
  ∧ (resources st !! uri resource = None →
     resources (state_of r) = resources st)
  ∧ subscribers (state_of r) = delete (uri resource) (subscribers st)
  ∧ all_sessions (state_of r) = all_sessions st
  ∧ trace_of r = (list_changed_batch st ++ list_changed_batch st)%list.
Proof.
  intros Hadd r. subst r.
  rewrite state_of_bind, trace_of_bind, add_resource_run.
  change (state_of (?a, ?s, ?t)) with s.
  change (trace_of (?a, ?s, ?t)) with t.
  rewrite remove_resource_run.
  change (state_of (?a, ?s, ?t)) with s.
  change (trace_of (?a, ?s, ?t)) with t.
  unfold set_resources; cbn [resources subscribers all_sessions].
  rewrite Hadd. unfold upsert_add. rewrite delete_insert_eq.
  split_and!; try done.
  intros Hnone. by apply delete_id.
Qed.



(** ** Subscribing and unsubscribing *)

Lemma subscribe_state uri sess st :
  state_of (_on_subscribe uri sess st)
  = set_subscribers
      (λ subs, <[uri := {[sess]} ∪ subscribers_get subs uri]> subs) st.
Proof. by rewrite _on_subscribe_run. Qed.

Lemma unsubscribe_state uri sess st :
  state_of (_on_unsubscribe uri sess st)
  = set_subscribers
      (λ subs, <[uri := subscribers_get subs uri ∖ {[sess]}]> subs) st.
Proof. by rewrite _on_unsubscribe_run. Qed.

(** X11: of a subscribe and an unsubscribe by one session for one uri,
    the last call decides: subscribing and then unsubscribing leaves the
    state that unsubscribing alone leaves, with the session not
    interested; unsubscribing and then subscribing leaves the state that
    subscribing alone leaves, with the session interested. *)
Theorem subscribe_unsubscribe_last_wins
    (uri : string) (sess : Session) (st : State) :
  state_of ((_on_subscribe uri sess ;;; _on_unsubscribe uri sess) st)
  = state_of (_on_unsubscribe uri sess st)
  ∧ state_of ((_on_unsubscribe uri sess ;;; _on_subscribe uri sess) st)
    = state_of (_on_subscribe uri sess st)
  ∧ (sess ∉ subscribers_get
              (subscribers (state_of (_on_unsubscribe uri sess st))) uri)
  ∧ (sess ∈ subscribers_get
              (subscribers (state_of (_on_subscribe uri sess st))) uri).
Proof.
  rewrite !state_of_bind, !subscribe_state, !unsubscribe_state.
  unfold set_subscribers; cbn [resources subscribers all_sessions].
  rewrite !subscribers_get_insert, !decide_True by done.
  rewrite !insert_insert_eq.
  set (interested := subscribers_get (subscribers st) uri).
  assert (({[sess]} ∪ interested) ∖ {[sess]} = interested ∖ {[sess]}) as ->
    by set_solver.
  assert ({[sess]} ∪ interested ∖ {[sess]} = {[sess]} ∪ interested) as ->.
  { apply set_eq. intros s. rewrite !elem_of_union, elem_of_difference.
    destruct (decide (s = sess)) as [->|]; set_solver. }
  split_and!; [done|done|set_solver|set_solver].
Qed.

(** X12: subscriptions do not depend on the order of the requests: two
    subscribe calls, for any uris and sessions, leave the same state in
    either order, and so do two unsubscribe calls. *)
Theorem subscriptions_commute
    (uri1 uri2 : string) (sess1 sess2 : Session) (st : State) :
  state_of ((_on_subscribe uri1 sess1 ;;; _on_subscribe uri2 sess2) st)
  = state_of ((_on_subscribe uri2 sess2 ;;; _on_subscribe uri1 sess1) st)
  ∧ state_of ((_on_unsubscribe uri1 sess1 ;;; _on_unsubscribe uri2 sess2) st)
    = state_of ((_on_unsubscribe uri2 sess2 ;;; _on_unsubscribe uri1 sess1) st).
Proof.
  rewrite !state_of_bind, !subscribe_state, !unsubscribe_state.
  unfold set_subscribers; cbn [resources subscribers all_sessions].
  rewrite !subscribers_get_insert.
  destruct (decide (uri1 = uri2)) as [->|Hne].
  - rewrite !decide_True by done. rewrite !insert_insert_eq.
    set (interested := subscribers_get (subscribers st) uri2).
    assert ({[sess2]} ∪ ({[sess1]} ∪ interested)
            = {[sess1]} ∪ ({[sess2]} ∪ interested)) as -> by set_solver.
    assert ((interested ∖ {[sess1]}) ∖ {[sess2]}
            = (interested ∖ {[sess2]}) ∖ {[sess1]}) as -> by set_solver.
    done.
  - rewrite !decide_False by done.
    split; f_equal; by apply insert_insert_ne.
Qed.

(** ** The startup scan *)

Lemma _start_watcher_run orig_add resolve (files : list Path) st :
  _start_watcher orig_add resolve files st
  = ((),
     foldl (λ s f, set_resources (orig_add (file_resource resolve f)) s)
       st files,
     files ≫= (λ _, list_changed_batch st)).
Proof.
  unfold _start_watcher.
  apply (for_each_run _
           (λ f, set_resources (orig_add (file_resource resolve f)))
           (λ _, list_changed_batch)).
  - intros f s. apply add_resource_run.
  - done.
Qed.

Lemma batches_list_changed_count {X} (l : list X) st sess :
  occurrences (SendResourceListChanged sess)
    (l ≫= (λ _, list_changed_batch st))
  = (if decide (sess ∈ all_sessions st) then 1 else 0) * length l.
Proof.
  induction l as [|x l IH]; [by rewrite Nat.mul_0_r|].
  rewrite bind_cons, occurrences_app, IH, list_changed_batch_occurrences.
  cbn [length]. lia.
Qed.

(** X13: the startup scan broadcasts once per file found: a session of
    the directory is sent as many list-changed notifications as there
    are files, and with an empty directory nothing is sent.  The scan
    touches neither the subscription index nor the directory. *)
Theorem start_watcher_broadcasts_per_file
    (orig_add : Resource → gmap string Resource → gmap string Resource)
    (resolve : Path → string) (files : list Path) (st : State) :
  let r := _start_watcher orig_add resolve files st in
  (∀ sess,
     occurrences (SendResourceListChanged sess) (trace_of r)
     = if decide (sess ∈ all_sessions st) then length files else 0)
  ∧ (all_sessions st = ∅ → notifications (trace_of r) = [])
  ∧ subscribers (state_of r) = subscribers st
  ∧ all_sessions (state_of r) = all_sessions st.
Proof.
  intros r. subst r. rewrite _start_watcher_run.
  change (state_of (?a, ?s, ?t)) with s.
  change (trace_of (?a, ?s, ?t)) with t.
  split_and!.
  - intros sess. rewrite batches_list_changed_count.
    destruct (decide (sess ∈ all_sessions st)); lia.
  - intros Hempty. unfold list_changed_batch. rewrite Hempty, elements_empty.
    induction files as [|f files IH]; [done|].
    rewrite bind_cons. unfold notifications in *.
    by rewrite filter_app, IH.
  - apply (foldl_state_ind (λ s, subscribers s = subscribers st)
             (λ f, set_resources (orig_add (file_resource resolve f))));
      done.
  - apply (foldl_state_ind (λ s, all_sessions s = all_sessions st)
             (λ f, set_resources (orig_add (file_resource resolve f))));
      done.
Qed.

(** X14: when the framework method upserts and distinct paths resolve to
    distinct strings, the startup scan registers every file it finds
    under its uri, with a resource that reads that file, and leaves the
    entries of all other uris as they were. *)
Theorem start_watcher_registers_files
    (orig_add : Resource → gmap string Resource → gmap string Resource)
    (resolve : Path → string) (files : list Path) (st : State) :
  (∀ r rs, orig_add r rs = upsert_add r rs) →
  Inj (=) (=) resolve →
  let st' := state_of (_start_watcher orig_add resolve files st) in
  (∀ f, f ∈ files →
        resources st' !! file_uri resolve f = Some (file_resource resolve f))
  ∧ (∀ key, key ∉ file_uri resolve <$> files →
            resources st' !! key = resources st !! key).
Proof.
  intros Hadd Hinj st'. subst st'. rewrite _start_watcher_run.
  change (state_of (?a, ?s, ?t)) with s.
  split.
  - intros f Hin. apply added_fold_lookup; [done..|].
    intros g _ Hg. by apply (file_uri_inj resolve) in Hg.
  - intros key Hkey. by apply added_fold_lookup_other.
Qed.

(** ** The progress demonstration tool *)

Lemma progress_reports_loop (total : Z) (l : list Z) :
  progress_reports (l ≫= (λ i, [Sleep 1; ReportProgress (i + 1) total]))
  = (λ i, ((i + 1)%Z, total)) <$> l.
Proof.
  induction l as [|i l IH]; [done|].
  rewrite bind_cons, fmap_cons, <- IH. done.
Qed.

Lemma slept_loop (total : Z) (l : list Z) :
  slept (l ≫= (λ i, [Sleep 1; ReportProgress (i + 1) total]))
  = Z.of_nat (length l).
Proof.
  induction l as [|i l IH]; [done|].
  rewrite bind_cons. cbn [length]. rewrite Nat2Z.inj_succ, <- IH.
  unfold slept. cbn. lia.
Qed.

(** X15: [long_task] reports progress [1], [2], ... up to [duration], each
    against the total [duration] and each after a sleep of one second, so
    the reports rise by one and the last one is complete; it sleeps
    [duration] seconds in all.  For a duration that is not positive it
    neither sleeps nor reports. *)
Theorem long_task_progress (duration : Z) :
  let tr := (long_task duration).1 in
  progress_reports tr = (λ k, (k, duration)) <$> seqZ 1 duration
  ∧ length (progress_reports tr) = Z.to_nat duration
  ∧ slept tr = Z.max 0 duration
  ∧ (∀ progress total,
       (progress, total) ∈ progress_reports tr →
       (1 ≤ progress ≤ total)%Z ∧ total = duration)
  ∧ ((0 < duration)%Z →
     last (progress_reports tr) = Some (duration, duration))
  ∧ ((duration ≤ 0)%Z → tr = [Print "USED LONG TASK"]).
Proof.
  intros tr. subst tr. unfold long_task. cbn [fst].
  assert (Hreports :
    progress_reports
      (Print "USED LONG TASK"
       :: (seqZ 0 duration
             ≫= (λ i, [Sleep 1; ReportProgress (i + 1) duration])))
    = (λ k, (k, duration)) <$> seqZ 1 duration).
  { change (progress_reports (Print ?s :: ?l)) with (progress_reports l).
    rewrite progress_reports_loop.
    replace (seqZ 1 duration) with (Z.add 1 <$> seqZ 0 duration)
      by (by rewrite fmap_add_seqZ).
    rewrite <- list_fmap_compose.
    apply list_fmap_ext. intros _ i _. simpl. f_equal. lia. }
  rewrite Hreports. split_and!.
  - done.
  - by rewrite length_fmap, length_seqZ.
  - change (slept (Print ?s :: ?l)) with (slept l).
    rewrite slept_loop, length_seqZ. lia.
  - intros progress total (k & [= -> ->] & Hk%elem_of_seqZ)%list_elem_of_fmap.
    lia.
  - intros Hpos. rewrite fmap_last.
    replace duration with (Z.of_nat (S (Z.to_nat (duration - 1)))) at 1 by lia.
    rewrite seqZ_S, last_snoc. simpl. do 2 f_equal. lia.
  - intros Hneg. by rewrite seqZ_nil.
Qed.

(** ** How often an update is announced *)

Lemma resource_updated_batch_occurrences st (u u' : string) sess :
  occurrences (SendResourceUpdated sess u) (resource_updated_batch st u')
  = if decide (u' = u)
    then (if decide (sess ∈ subscribers_get (subscribers st) u) then 1 else 0)
    else 0.
Proof.
  unfold resource_updated_batch.
  destruct (decide (u' = u)) as [->|Hne].
  - destruct (decide (sess ∈ subscribers_get (subscribers st) u))
      as [Hin|Hout].
    + apply (occurrences_fmap_NoDup (λ s, SendResourceUpdated s u)).
      * apply NoDup_elements.
      * by apply elem_of_elements.
    + apply occurrences_not_elem.
      intros (z & [= ->] & Hz%elem_of_elements)%list_elem_of_fmap. done.
  - apply occurrences_not_elem.
    intros (z & [= -> ->] & _)%list_elem_of_fmap. done.
Qed.

Lemma item_trace_updated_count resolve last_snap items st sess u :
  occurrences (SendResourceUpdated sess u)
    (items ≫= (λ item, item_trace resolve last_snap item st))
  = (if decide (sess ∈ subscribers_get (subscribers st) u) then 1 else 0)
    * length (filter (λ f, file_uri resolve f = u)
                (filter (is_modified last_snap) items).*1).
Proof.
  induction items as [|[f m] items IH]; [by rewrite Nat.mul_0_r|].
  rewrite bind_cons, occurrences_app, IH, filter_cons. clear IH.
  unfold item_trace at 1. cbn [fst snd].
  destruct (decide (is_modified last_snap (f, m))) as [Hmod|Hmod];
    unfold is_modified in Hmod; cbn [fst snd] in Hmod.
  - destruct Hmod as (old & Hold & Hne).
    rewrite Hold, decide_True by done.
    rewrite occurrences_cons, decide_False by done.
    rewrite resource_updated_batch_occurrences.
    rewrite fmap_cons, filter_cons. cbn [fst].
    destruct (decide (file_uri resolve f = u)); cbn [length]; lia.
  - destruct (last_snap !! f) as [old|] eqn:E.
    + destruct (decide (old ≠ m)); [|done].
      exfalso. apply Hmod. eauto.
    + rewrite occurrences_not_elem; [done|].
      rewrite elem_of_cons. intros [[=]|Hin].
      by apply list_changed_batch_updated in Hin.
Qed.

(** X16: in one cycle a session interested in a uri is sent one
    resource-updated notification for every file of that uri whose
    timestamp changed, and a session that is not interested none; a uri
    none of whose files changed is announced to nobody.  When distinct
    paths resolve to distinct strings that is at most one notification
    per uri and session. *)
Theorem watch_cycle_updated_count
    (orig_add : Resource → gmap string Resource → gmap string Resource)
    (resolve : Path → string)
    (last_snap current : gmap Path Mtime) (st : State)
    (sess : Session) (u : string) :
  occurrences (SendResourceUpdated sess u)
    (trace_of (watch_cycle orig_add resolve last_snap current st))
  = (if decide (sess ∈ subscribers_get (subscribers st) u)
     then length (filter (λ f, file_uri resolve f = u)
                    (modified_files last_snap current))
     else 0)
  ∧ (Inj (=) (=) resolve →
     (occurrences (SendResourceUpdated sess u)
        (trace_of (watch_cycle orig_add resolve last_snap current st))
      ≤ 1)%nat).
Proof.
  assert (Hcount :
    occurrences (SendResourceUpdated sess u)
      (trace_of (watch_cycle orig_add resolve last_snap current st))
    = (if decide (sess ∈ subscribers_get (subscribers st) u)
       then length (filter (λ f, file_uri resolve f = u)
                      (modified_files last_snap current))
       else 0)).
  { rewrite watch_cycle_run. change (trace_of (?a, ?s, ?t)) with t.
    rewrite occurrences_app, item_trace_updated_count.
    fold (modified_files last_snap current).
    rewrite (occurrences_not_elem _ (_ ≫= _)).
    - destruct (decide (sess ∈ subscribers_get (subscribers st) u)); lia.
    - rewrite list_elem_of_bind. intros (f & Hin & _).
      by apply deleted_trace_updated in Hin. }
  split; [done|].
  intros Hinj. rewrite Hcount.
  destruct (decide (sess ∈ subscribers_get (subscribers st) u)); [|lia].
  assert (NoDup (filter (λ f, file_uri resolve f = u)
                   (modified_files last_snap current))) as Hnd.
  { apply NoDup_filter, modified_files_spec. }
  destruct (filter (λ f, file_uri resolve f = u)
              (modified_files last_snap current)) as [|f [|g l]] eqn:E;
    cbn [length]; [lia..|].
  exfalso.
  assert (f ∈ filter (λ f, file_uri resolve f = u)
                (modified_files last_snap current)) as Hf
    by (rewrite E; apply list_elem_of_here).
  assert (g ∈ filter (λ f, file_uri resolve f = u)
                (modified_files last_snap current)) as Hg
    by (rewrite E; apply list_elem_of_further, list_elem_of_here).
  apply list_elem_of_filter in Hf as [Hfu _].
  apply list_elem_of_filter in Hg as [Hgu _].
  assert (f = g) as ->
    by (apply (file_uri_inj resolve); congruence).
  apply NoDup_cons in Hnd as [Hnot _]. apply Hnot, list_elem_of_here.
Qed.

(** ** Concrete runs of the further properties *)

#[local] Instance resolve_abs_inj : Inj (=) (=) resolve_abs.
Proof. by intros f g Heq. Qed.

Lemma watch_cycle_same_files_keeps_state_witness :
  state_of (watch_cycle upsert_add resolve_abs snap_both snap_after st_watched)
  = st_watched.
Proof.
  apply (watch_cycle_same_files_keeps_state upsert_add resolve_abs
           snap_both snap_after st_watched).
  by vm_compute.
Defined.

Lemma watch_cycle_registers_new_file_witness :
  resources
    (state_of (watch_cycle upsert_add resolve_abs snap_before snap_after
                 st_watched)) !! file_uri resolve_abs path_b
  = Some (file_resource resolve_abs path_b).
Proof.
  apply (watch_cycle_registers_new_file upsert_add resolve_abs
           snap_before snap_after st_watched path_b).
  - reflexivity.
  - exact resolve_abs_inj.
  - by eexists.
  - reflexivity.
Defined.

Lemma list_changed_only_to_listed_sessions_witness :
  SendResourceListChanged session_2
    ∉ trace_of
        (run upsert_add (Some list_resources) resolve_abs
           [OpSubscribe uri_a session_2; OpWatch snap_after; OpRemove uri_a]
           snap_before st_watched).
Proof.
  apply (list_changed_only_to_listed_sessions upsert_add
           (Some list_resources) resolve_abs session_2
           [OpSubscribe uri_a session_2; OpWatch snap_after; OpRemove uri_a]
           snap_before st_watched).
  - unfold st_watched, session_1, session_2; simpl. set_solver.
  - rewrite !not_elem_of_cons. split_and!; try done. apply not_elem_of_nil.
Defined.

Lemma add_then_remove_round_trip_witness :
  resources
    (state_of ((add_resource upsert_add resource_a' ;;;
                remove_resource (uri resource_a')) st_registered))
  = delete (uri resource_a') (resources st_registered).
Proof.
  apply (add_then_remove_round_trip upsert_add resource_a' st_registered).
  reflexivity.
Defined.


Lemma start_watcher_registers_files_witness :
  resources
    (state_of (_start_watcher upsert_add resolve_abs [path_a; path_b] st_listed))
    !! file_uri resolve_abs path_a
  = Some (file_resource resolve_abs path_a).
Proof.
  apply (start_watcher_registers_files upsert_add resolve_abs
           [path_a; path_b] st_listed).
  - reflexivity.
  - exact resolve_abs_inj.
  - apply list_elem_of_here.
Defined.

(** A task of three seconds. *)
Example long_task_three :
  (long_task 3).1
  = [Print "USED LONG TASK";
     Sleep 1; ReportProgress 1 3;
     Sleep 1; ReportProgress 2 3;
     Sleep 1; ReportProgress 3 3]
  ∧ (long_task 3).2 = "Completed long task of duration 3 seconds"
  ∧ (long_task (-2)).2 = "Completed long task of duration -2 seconds".
Proof. by vm_compute. Qed.
